(** * Task ordering and synchronisation of the JIRA side panel

    A shallow embedding of [TaskManager] (the side-panel script) and of the
    response handling of [JiraAPI.searchTasks], followed by the properties of
    the order list, of the single-flight guard, of the auto-refresh timer and
    of the reload message handler.

    JavaScript arrays of issue keys are lists of strings, the [Set] built in
    [loadTasks] is a [gset string], the browser (storage, timers, the pending
    asynchronous activations, the replies sent) is an explicit record that
    every operation threads through. An [async] function is cut at its
    [await]s: one definition per synchronous segment, and a run-to-completion
    function that chains the segments. *)

From stdpp Require Import gmap strings list pretty.

Local Open Scope string_scope.
Local Open Scope list_scope.
Local Open Scope nat_scope.

(** ** Data model *)

Definition key := string.

(** The object built by [JiraAPI.transformTasks] for one issue; the nested
    display objects are flattened to the fields the panel reads. *)
Record Task := mkTask {
  task_id : string;
  task_key : key;
  task_summary : string;
  task_status_name : string;
  task_status_category : string;
  task_priority_name : string;
  task_type_name : string;
  task_url : string
}.

(** [this.tasks.map(t => t.key)] *)
Definition keys (ts : list Task) : list key := task_key <$> ts.

(** ** The reconcile step of [loadTasks] (the if/else on [this.taskOrder]) *)

Definition reconcile (taskOrder : list key) (tasks : list Task) : list key :=
  if decide (length taskOrder = 0) then
    keys tasks
  else
    let existingKeys : gset key := list_to_set (keys tasks) in
    let taskOrder' := filter (λ k, k ∈ existingKeys) taskOrder in
    let newKeys := filter (λ k, k ∉ taskOrder') (keys tasks) in
    taskOrder' ++ newKeys.

(** ** [JiraAPI.searchTasks]: from the HTTP response to its result *)

(** What [loadTasks] gets from [await this.jiraApi.searchTasks(..)]: the
    transformed issues, or the message of the [Error] it rejects with. *)
Inductive SearchResult :=
| SearchOk (ts : list Task)
| SearchErr (message : string).

(** The object [JSON.parse(errorBody)] of an error response. *)
Record ErrorJson := mkErrorJson {
  errorMessages : option (list string);
  error : option string
}.

(** What [fetch] resolves with. [text] is [None] when [response.text()]
    throws, [errorJson] is [None] when [JSON.parse] or reading its fields
    throws, [json] is the outcome of [response.json()] followed by
    [transformTasks(data.issues)]: the tasks, or the message of the exception. *)
Record Response := mkResponse {
  status : nat;
  statusText : string;
  text : option string;
  errorJson : option ErrorJson;
  json : string + list Task
}.

(** [response.ok] *)
Definition ok (r : Response) : bool :=
  bool_decide (200 ≤ status r ≤ 299).

Definition truthy (s : string) : bool := bool_decide (s ≠ "").

(** The [errorMessage] computed for a response that is not ok. *)
Definition errorMessage (r : Response) : string :=
  let errorMessage := "HTTP " +:+ pretty (status r) +:+ ": " +:+ statusText r in
  match text r with
  | Some errorBody =>
      match errorJson r with
      | Some errorJson =>
          match errorMessages errorJson, error errorJson with
          | Some (m :: ms), _ => String.concat ", " (m :: ms)
          | _, Some e => if truthy e then e else errorMessage
          | _, None => errorMessage
          end
      | None =>
          if truthy errorBody && bool_decide (String.length errorBody < 200)
          then errorMessage +:+ " - " +:+ errorBody
          else errorMessage
      end
  | None => errorMessage
  end.

Definition searchTasks_response (r : Response) : SearchResult :=
  if negb (ok r) then
    if bool_decide (status r = 401) then
      SearchErr "Not authenticated. Please log in to JIRA first."
    else if bool_decide (status r = 403) then
      SearchErr "Access denied. Check your JIRA permissions."
    else if bool_decide (status r = 404) then
      SearchErr "JIRA API endpoint not found. Check your JIRA URL."
    else SearchErr ("Failed to fetch tasks: " +:+ errorMessage r)
  else
    match json r with
    | inl message => SearchErr message
    | inr ts => SearchOk ts
    end.

(** [searchTasks] for the configured [jiraUrl] and the outcome of [fetch]
    (the message of a network error, or the response). *)
Definition searchTasks (jiraUrl : string) (fetched : string + Response)
  : SearchResult :=
  if negb (truthy jiraUrl) then SearchErr "JIRA URL not configured"
  else match fetched with
       | inl message => SearchErr message
       | inr r => searchTasks_response r
       end.

(** [String.prototype.includes] *)
Fixpoint includes (s sub : string) : bool :=
  String.prefix sub s ||
  match s with
  | EmptyString => false
  | String _ s' => includes s' sub
  end.

(** ** The state: the [TaskManager] object, the panel's DOM, the browser *)

(** The fields of [TaskManager] that the event handlers share. A timer
    handle is a positive integer, so [if (this.refreshInterval)] holds
    whenever the field is not [null]. *)
Record TaskManager := mkTaskManager {
  tasks : list Task;
  taskOrder : list key;
  isLoading : bool;
  refreshInterval : option positive
}.

(** [taskList_cards] holds [dataset.taskKey] of the [.task-card] children of
    [#taskList], in document order. *)
Record Dom := mkDom {
  loadingIndicator_hidden : bool;
  taskList_hidden : bool;
  errorMessage_hidden : bool;
  errorMessage_text : string;
  emptyState_hidden : bool;
  taskList_cards : list key;
  taskCount_text : string
}.

(** [{ reloaded: true }] and [{ error: message }] *)
Inductive Reply :=
| Reloaded
| ReloadError (message : string).

(** Where a suspended activation of [loadTasks] waits. *)
Inductive Await := AwaitSearch | AwaitSave.

#[global] Instance Await_eq_dec : EqDecision Await.
Proof. solve_decision. Defined.

(** Who holds the promise of an activation of [loadTasks]: nobody (the
    refresh button, the interval, [init]), or the [then]/[catch] chain of the
    message listener. *)
Inductive Caller := Discarded | ReloadRequest.

(** [stored_taskOrder] is the item [taskOrder] of [chrome.storage.local];
    [set_calls] the payloads of the [set] calls and [search_calls] the
    arguments of the [searchTasks] calls, oldest first; [intervals] the
    active [setInterval] timers; [suspended] the activations of [loadTasks]
    waiting at an [await]; [replies] the [sendResponse] calls, oldest first. *)
Record Browser := mkBrowser {
  stored_taskOrder : option (list key);
  set_calls : list (list key);
  intervals : gset positive;
  next_interval : positive;
  search_calls : list bool;
  suspended : list (Await * Caller);
  replies : list Reply
}.

Record World := mkWorld {
  tm : TaskManager;
  dom : Dom;
  browser : Browser
}.

Definition with_tm (f : TaskManager → TaskManager) (w : World) : World :=
  mkWorld (f (tm w)) (dom w) (browser w).
Definition with_dom (f : Dom → Dom) (w : World) : World :=
  mkWorld (tm w) (f (dom w)) (browser w).
Definition with_browser (f : Browser → Browser) (w : World) : World :=
  mkWorld (tm w) (dom w) (f (browser w)).

Definition set_tasks (ts : list Task) (t : TaskManager) : TaskManager :=
  mkTaskManager ts (taskOrder t) (isLoading t) (refreshInterval t).
Definition set_taskOrder (o : list key) (t : TaskManager) : TaskManager :=
  mkTaskManager (tasks t) o (isLoading t) (refreshInterval t).
Definition set_isLoading (b : bool) (t : TaskManager) : TaskManager :=
  mkTaskManager (tasks t) (taskOrder t) b (refreshInterval t).
Definition set_refreshInterval (i : option positive) (t : TaskManager)
  : TaskManager :=
  mkTaskManager (tasks t) (taskOrder t) (isLoading t) i.

(** The constructor's fields, over what the browser holds when the panel
    opens. *)
Definition initial (stored : option (list key)) (d : Dom) : World :=
  mkWorld (mkTaskManager [] [] false None) d
          (mkBrowser stored [] ∅ 1%positive [] [] []).

(** ** DOM helpers of [TaskManager] *)

Definition showLoading (show : bool) (d : Dom) : Dom :=
  mkDom (negb show) show (errorMessage_hidden d) (errorMessage_text d)
        (emptyState_hidden d) (taskList_cards d) (taskCount_text d).

Definition showError (message : string) (d : Dom) : Dom :=
  mkDom (loadingIndicator_hidden d) (taskList_hidden d) false message
        (emptyState_hidden d) (taskList_cards d) (taskCount_text d).

Definition hideError (d : Dom) : Dom :=
  mkDom (loadingIndicator_hidden d) (taskList_hidden d) true
        (errorMessage_text d) (emptyState_hidden d) (taskList_cards d)
        (taskCount_text d).

Definition showEmptyState (d : Dom) : Dom :=
  mkDom (loadingIndicator_hidden d) true (errorMessage_hidden d)
        (errorMessage_text d) false (taskList_cards d) (taskCount_text d).

Definition hideEmptyState (d : Dom) : Dom :=
  mkDom (loadingIndicator_hidden d) false (errorMessage_hidden d)
        (errorMessage_text d) true (taskList_cards d) (taskCount_text d).

Definition set_cards (cs : list key) (d : Dom) : Dom :=
  mkDom (loadingIndicator_hidden d) (taskList_hidden d) (errorMessage_hidden d)
        (errorMessage_text d) (emptyState_hidden d) cs (taskCount_text d).

Definition set_taskCount (s : string) (d : Dom) : Dom :=
  mkDom (loadingIndicator_hidden d) (taskList_hidden d) (errorMessage_hidden d)
        (errorMessage_text d) (emptyState_hidden d) (taskList_cards d) s.

(** [this.taskOrder.map(key => this.tasks.find(t => t.key === key)).filter(Boolean)] *)
Definition sortedTasks (t : TaskManager) : list Task :=
  omap (λ k, List.find (λ x, bool_decide (task_key x = k)) (tasks t))
       (taskOrder t).

Definition renderTasks (w : World) : World :=
  let w := with_dom (set_cards []) w in
  if decide (length (tasks (tm w)) = 0) then with_dom showEmptyState w
  else
    let w := with_dom hideEmptyState w in
    with_dom (set_cards (keys (sortedTasks (tm w)))) w.

(** [updateStats]; the clock text of [#lastUpdate] is left out. *)
Definition updateStats (w : World) : World :=
  let count := length (tasks (tm w)) in
  with_dom (set_taskCount
    (pretty count +:+ " task" +:+ (if decide (count ≠ 1) then "s" else ""))) w.

(** ** [chrome.storage.local] and the timers *)

(** What a storage [get] hands to its callback: no result at all when the
    read failed ([chrome.runtime.lastError] is set and the callback runs
    without arguments), else an object holding the item when it is stored. *)
Inductive GetResult (A : Type) :=
| NoResult
| Items (item : option A).
Arguments NoResult {A}.
Arguments Items {A} item.

Definition local_get (succeeds : bool) (b : Browser) : GetResult (list key) :=
  if succeeds then Items (stored_taskOrder b) else NoResult.

(** [chrome.storage.local.set({ taskOrder: v }, cb)]; [cb] runs whether or
    not the write succeeded. *)
Definition local_set (succeeds : bool) (v : list key) (b : Browser) : Browser :=
  mkBrowser (if succeeds then Some v else stored_taskOrder b)
            (set_calls b ++ [v]) (intervals b) (next_interval b)
            (search_calls b) (suspended b) (replies b).

Definition setInterval (b : Browser) : positive * Browser :=
  (next_interval b,
   mkBrowser (stored_taskOrder b) (set_calls b)
             ({[next_interval b]} ∪ intervals b) (Pos.succ (next_interval b))
             (search_calls b) (suspended b) (replies b)).

Definition clearInterval (i : positive) (b : Browser) : Browser :=
  mkBrowser (stored_taskOrder b) (set_calls b) (intervals b ∖ {[i]})
            (next_interval b) (search_calls b) (suspended b) (replies b).

Definition log_search (forceReload : bool) (b : Browser) : Browser :=
  mkBrowser (stored_taskOrder b) (set_calls b) (intervals b) (next_interval b)
            (search_calls b ++ [forceReload]) (suspended b) (replies b).

Definition set_suspended (l : list (Await * Caller)) (b : Browser) : Browser :=
  mkBrowser (stored_taskOrder b) (set_calls b) (intervals b) (next_interval b)
            (search_calls b) l (replies b).

Definition sendResponse (r : Reply) (b : Browser) : Browser :=
  mkBrowser (stored_taskOrder b) (set_calls b) (intervals b) (next_interval b)
            (search_calls b) (suspended b) (replies b ++ [r]).

(** ** Promises and completions *)

(** How a block ends: normally, or by an exception with this message. *)
Inductive Completion :=
| Normal
| Throw (message : string).

(** The state of the promise of an [async] function or of a [new Promise]. *)
Inductive Promise :=
| Fulfilled
| Rejected (message : string)
| Pending.

(** One synchronous segment of an [async] function either ends the function
    or stops at an [await]. *)
Inductive Progress :=
| Return (c : Completion)
| Suspend (a : Await).

Definition promise_of (c : Completion) : Promise :=
  match c with
  | Normal => Fulfilled
  | Throw message => Rejected message
  end.

(** ** Persisting and restoring the order *)

(** [saveTaskOrder]: the payload is read when [set] is called; the promise
    is resolved by the callback of [set]. *)
Definition saveTaskOrder (succeeds : bool) (w : World) : World :=
  with_browser (local_set succeeds (taskOrder (tm w))) w.

(** The callback of [loadTaskOrder]. Reading [result.taskOrder] of a missing
    result throws inside the callback, so [resolve] is never reached and the
    promise stays pending. *)
Definition loadTaskOrder_callback (result : GetResult (list key)) (w : World)
  : World * Promise :=
  match result with
  | NoResult => (w, Pending)
  | Items item => (with_tm (set_taskOrder (default [] item)) w, Fulfilled)
  end.

Definition loadTaskOrder (succeeds : bool) (w : World) : World * Promise :=
  loadTaskOrder_callback (local_get succeeds (browser w)) w.

(** [updateTaskOrder]: the order is read back from the cards of the panel. *)
Definition updateTaskOrder (succeeds : bool) (w : World) : World :=
  let w := with_tm (set_taskOrder (taskList_cards (dom w))) w in
  saveTaskOrder succeeds w.

(** [handleDragOver] moves the dragged card (the one at index [from]) in
    front of the card that is at index [to] once it is taken out, or to the
    end. *)
Definition handleDragOver (from to : nat) (w : World) : World :=
  let cs := taskList_cards (dom w) in
  match cs !! from with
  | Some c =>
      let rest := delete from cs in
      with_dom (set_cards (take to rest ++ c :: drop to rest)) w
  | None => w
  end.

(** ** [loadTasks], segment by segment *)

(** Up to [await this.jiraApi.searchTasks(forceReload)]. *)
Definition loadTasks_enter (forceReload : bool) (w : World) : World * Progress :=
  if isLoading (tm w) then (w, Return Normal)
  else
    let w := with_tm (set_isLoading true) w in
    let w := with_dom (showLoading true) w in
    let w := with_dom hideError w in
    let w := with_browser (log_search forceReload) w in
    (w, Suspend AwaitSearch).

(** The [catch] and [finally] blocks, entered with the completion of the
    [try] block. *)
Definition loadTasks_catch (c : Completion) (w : World) : World * Completion :=
  match c with
  | Normal => (w, Normal)
  | Throw message => (with_dom (showError message) w, Normal)
  end.

Definition loadTasks_finally (w : World) : World :=
  let w := with_tm (set_isLoading false) w in
  with_dom (showLoading false) w.

Definition loadTasks_leave (c : Completion) (w : World) : World * Progress :=
  let '(w, c) := loadTasks_catch c w in
  (loadTasks_finally w, Return c).

(** From the settling of [searchTasks] to [await this.saveTaskOrder()]. *)
Definition loadTasks_searched (r : SearchResult) (saved : bool) (w : World)
  : World * Progress :=
  match r with
  | SearchErr message => loadTasks_leave (Throw message) w
  | SearchOk ts =>
      let w := with_tm (set_tasks ts) w in
      let w := with_tm (set_taskOrder
                 (reconcile (taskOrder (tm w)) (tasks (tm w)))) w in
      let w := saveTaskOrder saved w in
      (w, Suspend AwaitSave)
  end.

(** From the settling of [saveTaskOrder] to the end. *)
Definition loadTasks_saved (w : World) : World * Progress :=
  let w := renderTasks w in
  let w := updateStats w in
  let w := if decide (length (tasks (tm w)) = 0)
           then with_dom showEmptyState w else w in
  loadTasks_leave Normal w.

Definition loadTasks_resume (a : Await) (r : SearchResult) (saved : bool)
  (w : World) : World * Progress :=
  match a with
  | AwaitSearch => loadTasks_searched r saved w
  | AwaitSave => loadTasks_saved w
  end.

(** [loadTasks] run to its end with nothing else in between: [r] is what
    [searchTasks] settles with, [saved] whether the storage write succeeds. *)
Definition loadTasks (forceReload : bool) (r : SearchResult) (saved : bool)
  (w : World) : World * Promise :=
  match loadTasks_enter forceReload w with
  | (w, Return c) => (w, promise_of c)
  | (w, Suspend _) =>
      match loadTasks_searched r saved w with
      | (w, Return c) => (w, promise_of c)
      | (w, Suspend _) =>
          match loadTasks_saved w with
          | (w, Return c) => (w, promise_of c)
          | (w, Suspend _) => (w, Pending)
          end
      end
  end.

(** ** The auto-refresh timer *)

(** The callback of [chrome.storage.sync.get(['autoRefresh'], ..)] in
    [setupAutoRefresh]. With no result, reading [result.autoRefresh] throws
    after the old timer is cleared. *)
Definition setupAutoRefresh (result : GetResult bool) (w : World) : World :=
  let w :=
    match refreshInterval (tm w) with
    | Some i =>
        let w := with_browser (clearInterval i) w in
        with_tm (set_refreshInterval None) w
    | None => w
    end in
  match result with
  | NoResult => w
  | Items autoRefresh =>
      if decide (autoRefresh ≠ Some false) then
        let '(i, b) := setInterval (browser w) in
        mkWorld (set_refreshInterval (Some i) (tm w)) (dom w) b
      else w
  end.

(** ** The event loop *)

(** What the holder of the promise of [loadTasks] does when it settles: the
    message listener answers from [then] or from [catch]. *)
Definition settle (caller : Caller) (c : Completion) (w : World) : World :=
  match caller, promise_of c with
  | ReloadRequest, Fulfilled => with_browser (sendResponse Reloaded) w
  | ReloadRequest, Rejected message =>
      with_browser (sendResponse (ReloadError message)) w
  | _, _ => w
  end.

Definition advance (caller : Caller) (wp : World * Progress) : World :=
  match wp with
  | (w, Return c) => settle caller c w
  | (w, Suspend a) =>
      with_browser
        (λ b, set_suspended (suspended b ++ [(a, caller)]) b) w
  end.

Definition call_loadTasks (caller : Caller) (forceReload : bool) (w : World)
  : World :=
  advance caller (loadTasks_enter forceReload w).

(** One turn of the event loop. [SearchSettled n] and [SaveSettled n] resume
    the [n]-th suspended activation of [loadTasks]. *)
Inductive Event :=
| Refresh
| Tick (i : positive)
| Message (action : string)
| SearchSettled (n : nat) (r : SearchResult) (saved : bool)
| SaveSettled (n : nat)
| DragOver (from to : nat)
| Drop (saved : bool)
| AutoRefreshRead (result : GetResult bool)
| TaskOrderRead (succeeds : bool).

Definition resume (n : nat) (a : Await) (r : SearchResult) (saved : bool)
  (w : World) : World :=
  match suspended (browser w) !! n with
  | Some (a', caller) =>
      if decide (a' = a) then
        let w := with_browser
                   (λ b, set_suspended (delete n (suspended b)) b) w in
        advance caller (loadTasks_resume a r saved w)
      else w
  | None => w
  end.

Definition step (w : World) (e : Event) : World :=
  match e with
  | Refresh => call_loadTasks Discarded false w
  | Tick i =>
      if decide (i ∈ intervals (browser w))
      then call_loadTasks Discarded false w else w
  | Message action =>
      if decide (action = "reload-tasks")
      then call_loadTasks ReloadRequest true w else w
  | SearchSettled n r saved => resume n AwaitSearch r saved w
  | SaveSettled n => resume n AwaitSave (SearchOk []) true w
  | DragOver from to => handleDragOver from to w
  | Drop saved => updateTaskOrder saved w
  | AutoRefreshRead result => setupAutoRefresh result w
  | TaskOrderRead succeeds => (loadTaskOrder succeeds w).1
  end.

Definition run (es : list Event) (w : World) : World := foldl step w es.

Definition issue (k : key) : Task :=
  mkTask k k "" "To Do" "To Do" "Medium" "Task" "".

Definition blank : Dom := mkDom true false true "" true [] "".

(** ** Vocabulary of the properties *)

(** How often [k] occurs in [l]. *)
Definition occurrences (k : key) (l : list key) : nat :=
  length (filter (λ x, x = k) l).

(** The two runs the new order is made of: the keys of the old order that
    were fetched, then the fetched keys the old order lacks. *)
Definition survivors (O : list key) (F : list Task) : list key :=
  filter (λ k, k ∈ keys F) O.
Definition arrivals (O : list key) (F : list Task) : list key :=
  filter (λ k, k ∉ O) (keys F).

(** What is asked of the order [R] made from the old order [O] and the
    fetched issues [F]: every fetched key occurs in it once, and it is the
    surviving keys of [O] in the order of [O], then the new keys in the order
    of [F]. *)
Definition reconciled (O : list key) (F : list Task) (R : list key) : Prop :=
  (∀ k, k ∈ keys F → occurrences k R = 1) ∧
  R = survivors O F ++ arrivals O F.

(** The panel right after it restored the stored order [O]. *)
Definition holding (O : list key) : World :=
  run [TaskOrderRead true] (initial (Some O) blank).

(** The busy flag is set exactly while one activation of [loadTasks] is
    suspended, and there is never a second one. *)
Definition single_flight (w : World) : Prop :=
  match suspended (browser w) with
  | [] => isLoading (tm w) = false
  | [_] => isLoading (tm w) = true
  | _ => False
  end.

(** The active timers are the one [refreshInterval] names, and its handle
    was handed out before. *)
Definition timer_owned (w : World) : Prop :=
  match refreshInterval (tm w) with
  | Some i =>
      intervals (browser w) = {[i]} ∧ (i < next_interval (browser w))%positive
  | None => intervals (browser w) = ∅
  end.

(** No key is held twice: not by the order list, not by the stored order,
    not by the cards of the panel. *)
Definition duplicate_free (w : World) : Prop :=
  NoDup (taskOrder (tm w)) ∧
  NoDup (default [] (stored_taskOrder (browser w))) ∧
  NoDup (taskList_cards (dom w)).

(** The tracker answers a search with issues of distinct keys. *)
Definition distinct_issues (e : Event) : Prop :=
  match e with
  | SearchSettled _ (SearchOk ts) _ => NoDup (keys ts)
  | _ => True
  end.

(** Every reply sent so far is the success acknowledgement. *)
Definition only_acknowledged (w : World) : Prop :=
  Forall (λ reply, reply = Reloaded) (replies (browser w)).

(** [result.autoRefresh !== false], when there is a result. *)
Definition enabled (result : GetResult bool) : bool :=
  match result with
  | NoResult => false
  | Items autoRefresh => bool_decide (autoRefresh ≠ Some false)
  end.

Definition unauthorized : Response :=
  mkResponse 401 "Unauthorized" (Some "") None (inl "").

(** * The rest of the panel, the tracker client and the options page *)

(** ** String functions of the host *)

(** [String.prototype.toLowerCase] and [trim] follow Unicode, and the texts
    of the [TypeError]s raised by reading a property of [undefined] and of
    [null] are the engine's; they are taken from the host, with the facts
    used below: the empty string is lowered and trimmed to itself, lowering
    empties no string, and the message of a [TypeError] is not blank. *)
Class Host := {
  toLowerCase : string → string;
  trim : string → string;
  typeErrorMessage : string → string;
  nullErrorMessage : string → string;
  toLowerCase_empty : toLowerCase "" = "";
  toLowerCase_truthy : ∀ s, s ≠ "" → toLowerCase s ≠ "";
  trim_empty : trim "" = "";
  typeErrorMessage_truthy : ∀ property, typeErrorMessage property ≠ "";
  nullErrorMessage_truthy : ∀ property, nullErrorMessage property ≠ ""
}.

(** The characters named by their code: the double quote, the backslash,
    the slash, the comma, the line feed and the blank. *)
Definition dquote_char : Ascii.ascii := Ascii.ascii_of_nat 34.
Definition backslash_char : Ascii.ascii := Ascii.ascii_of_nat 92.
Definition slash_char : Ascii.ascii := Ascii.ascii_of_nat 47.
Definition comma_char : Ascii.ascii := Ascii.ascii_of_nat 44.
Definition newline_char : Ascii.ascii := Ascii.ascii_of_nat 10.
Definition space_char : Ascii.ascii := Ascii.ascii_of_nat 32.

Definition dquote : string := String dquote_char "".
Definition backslash : string := String backslash_char "".

(** [s.split(sep)] for a separator that is one of the characters [seps]. *)
Fixpoint split (seps : list Ascii.ascii) (s : string) : list string :=
  match s with
  | EmptyString => [""]
  | String c s' =>
      if bool_decide (c ∈ seps) then "" :: split seps s'
      else match split seps s' with
           | piece :: pieces => String c piece :: pieces
           | [] => [String c ""]
           end
  end.

(** [s.replace(/c/g, replacement)] for a character [c] *)
Fixpoint replaceAll (c : Ascii.ascii) (replacement : string) (s : string)
  : string :=
  match s with
  | EmptyString => ""
  | String x s' =>
      (if bool_decide (x = c) then replacement else String x "")
      +:+ replaceAll c replacement s'
  end.

(** [s.replace(/\/$/, '')] *)
Fixpoint stripSlash (s : string) : string :=
  match s with
  | EmptyString => ""
  | String c s' =>
      if bool_decide (c = slash_char) && bool_decide (s' = "") then ""
      else String c (stripSlash s')
  end.

(** The host on ASCII text, to run the definitions. *)
Definition ascii_lower (c : Ascii.ascii) : Ascii.ascii :=
  let n := Ascii.nat_of_ascii c in
  if bool_decide (65 ≤ n ≤ 90) then Ascii.ascii_of_nat (n + 32) else c.

Fixpoint ascii_toLowerCase (s : string) : string :=
  match s with
  | EmptyString => ""
  | String c s' => String (ascii_lower c) (ascii_toLowerCase s')
  end.

Definition ascii_space (c : Ascii.ascii) : bool :=
  let n := Ascii.nat_of_ascii c in
  bool_decide (n = 32) || bool_decide (9 ≤ n ≤ 13).

Fixpoint ascii_trimStart (s : string) : string :=
  match s with
  | EmptyString => ""
  | String c s' => if ascii_space c then ascii_trimStart s' else s
  end.

Fixpoint ascii_trimEnd (s : string) : string :=
  match s with
  | EmptyString => ""
  | String c s' =>
      let rest := ascii_trimEnd s' in
      if ascii_space c && bool_decide (rest = "") then "" else String c rest
  end.

Definition ascii_toLowerCase_truthy (s : string) :
  s ≠ "" → ascii_toLowerCase s ≠ "" :=
  match s with
  | EmptyString => λ H, H
  | String _ _ => λ _, ltac:(discriminate)
  end.

#[global] Instance ascii_host : Host := {|
  toLowerCase := ascii_toLowerCase;
  trim := λ s, ascii_trimEnd (ascii_trimStart s);
  typeErrorMessage := λ property,
    "Cannot read properties of undefined (reading '" +:+ property +:+ "')";
  nullErrorMessage := λ property,
    "Cannot read properties of null (reading '" +:+ property +:+ "')";
  toLowerCase_empty := eq_refl;
  toLowerCase_truthy := ascii_toLowerCase_truthy;
  trim_empty := eq_refl;
  typeErrorMessage_truthy := λ property, ltac:(discriminate);
  nullErrorMessage_truthy := λ property, ltac:(discriminate)
|}.

(** ** The cards of the panel and its two filters *)

(** A [.task-card]: its [dataset.taskKey], the text of its [.task-title] and
    of its [.task-status], and whether [style.display] is [''] (shown) or
    ['none']. *)
Record Card := mkCard {
  card_key : key;
  card_title : string;
  card_status : string;
  card_shown : bool
}.

Definition set_shown (shown : bool) (c : Card) : Card :=
  mkCard (card_key c) (card_title c) (card_status c) shown.

Definition filterTasks `{Host} (searchTerm : string) (cards : list Card)
  : list Card :=
  let term := toLowerCase searchTerm in
  (λ card,
     let title := toLowerCase (card_title card) in
     let key := toLowerCase (card_key card) in
     set_shown (includes title term || includes key term) card) <$> cards.

Definition filterByStatus `{Host} (status : string) (cards : list Card)
  : list Card :=
  (λ card,
     if negb (truthy status) then set_shown true card
     else
       let cardStatus := toLowerCase (card_status card) in
       if bool_decide (status = "todo") && includes cardStatus "to do"
       then set_shown true card
       else if bool_decide (status = "inprogress")
               && includes cardStatus "progress"
       then set_shown true card
       else if bool_decide (status = "review") && includes cardStatus "review"
       then set_shown true card
       else set_shown false card) <$> cards.

Definition getPriorityClass `{Host} (priority : string) : string :=
  let p := toLowerCase priority in
  if includes p "highest" || includes p "blocker" then "priority-highest"
  else if includes p "high" || includes p "critical" then "priority-high"
  else if includes p "low" || includes p "minor" then "priority-low"
  else if includes p "lowest" || includes p "trivial" then "priority-lowest"
  else "priority-medium".

(** While the busy flag is set the loading indicator is shown and the task
    list hidden. *)
Definition loading_shown (w : World) : Prop :=
  isLoading (tm w) = true →
  loadingIndicator_hidden (dom w) = false ∧ taskList_hidden (dom w) = true.

(** The events of a drag: the card is moved, nothing else happens. *)
Definition dragging (e : Event) : Prop :=
  match e with
  | DragOver _ _ => True
  | _ => False
  end.

(** ** [chrome.storage.sync] *)

(** The items the extension keeps in [chrome.storage.sync], each one absent
    until the options page saves it. [sync_maxTasks] holds what [parseInt]
    gave, [None] for [NaN]. *)
Record Sync := mkSync {
  sync_jiraType : option string;
  sync_jiraUrl : option string;
  sync_username : option string;
  sync_includeAssigned : option bool;
  sync_includeReviewer : option bool;
  sync_excludedStatuses : option string;
  sync_maxTasks : option (option Z);
  sync_showPriority : option bool;
  sync_showStatus : option bool;
  sync_autoRefresh : option bool
}.

Definition never_saved : Sync :=
  mkSync None None None None None None None None None None.

(** What [chrome.storage.sync.get(['autoRefresh'], ..)] hands to the callback
    of [setupAutoRefresh]. *)
Definition autoRefresh_read (read : option Sync) : GetResult bool :=
  match read with
  | None => NoResult
  | Some store => Items (sync_autoRefresh store)
  end.

(** ** The tracker client, [JiraAPI] *)

Module JiraAPI.

Record Settings := mkSettings {
  jiraType : string;
  jiraUrl : string;
  username : string;
  includeAssigned : bool;
  includeReviewer : bool;
  excludedStatuses : string;
  maxTasks : option Z
}.

(** The object [get] answers with for the defaults of [loadSettings]. *)
Definition with_defaults (store : Sync) : Settings :=
  mkSettings (default "cloud" (sync_jiraType store))
             (default "" (sync_jiraUrl store))
             (default "" (sync_username store))
             (default true (sync_includeAssigned store))
             (default true (sync_includeReviewer store))
             (default "Done, Closed, Resolved" (sync_excludedStatuses store))
             (default (Some 50%Z) (sync_maxTasks store)).

(** Whether [loadSettings] answers from [this.settings]. *)
Definition cached (forceReload : bool) (settings : option Settings) : bool :=
  match settings with
  | Some s => truthy (jiraUrl s) && negb forceReload
  | None => false
  end.

(** [loadSettings]: the new [this.settings], which is also the value the
    promise resolves with. [read] is what the storage holds, [None] when the
    read fails and the callback gets [undefined]. *)
Definition loadSettings (forceReload : bool) (settings : option Settings)
  (read : option Sync) : option Settings :=
  if cached forceReload settings then settings else with_defaults <$> read.

(** A field of the user object: absent, [null] or a string. *)
Inductive JsonText :=
| Absent
| Null
| Text (s : string).

Record User := mkUser {
  accountId : JsonText;
  user_key : JsonText;
  displayName : JsonText;
  name : JsonText
}.

(** The response to the request for [/myself]; [identity_json] is the
    outcome of [response.json()]: the message of the exception, or the value
    the body parses to, [None] for [null]. A body that parses to a number, a
    string, a boolean or an array has none of the fields read, like a user
    with all of them absent. *)
Record IdentityResponse := mkIdentityResponse {
  identity_ok : bool;
  identity_statusText : string;
  identity_json : string + option User
}.

(** [getCurrentUser]: the new [this.settings] and the parsed body, or the
    message of the error it rejects with. *)
Definition getCurrentUser `{Host} (settings : option Settings)
  (read : option Sync) (fetched : string + IdentityResponse)
  : option Settings * (string + option User) :=
  let settings := loadSettings false settings read in
  (settings,
   match settings with
   | None => inl (typeErrorMessage "jiraUrl")
   | Some s =>
       if negb (truthy (jiraUrl s)) then inl "JIRA URL not configured"
       else match fetched with
            | inl message => inl message
            | inr response =>
                if negb (identity_ok response) then
                  inl ("Failed to get current user: "
                       +:+ identity_statusText response)
                else identity_json response
            end
   end).

(** [getCurrentUserKey]; reading the key of a [null] user throws inside the
    [try], which the [catch] answers with the configured user name. *)
Definition getCurrentUserKey `{Host} (settings : option Settings)
  (read : option Sync) (fetched : string + IdentityResponse)
  : option Settings * (string + JsonText) :=
  let '(settings, user) := getCurrentUser settings read fetched in
  (settings,
   match user, settings with
   | inr (Some user), Some s =>
       inr (if bool_decide (jiraType s = "cloud")
            then accountId user else user_key user)
   | inr None, Some s => inr (Text (username s))
   | inr _, None => inl (typeErrorMessage "username")
   | inl _, Some s => inr (Text (username s))
   | inl _, None => inl (typeErrorMessage "username")
   end).

(** The clauses joined by [OR]. *)
Definition jqlParts (s : Settings) : list string :=
  let jqlParts := [] in
  let jqlParts :=
    if includeAssigned s then jqlParts ++ ["assignee = currentUser()"]
    else jqlParts in
  let jqlParts :=
    if includeReviewer s then
      if bool_decide (jiraType s = "cloud")
      then jqlParts ++ [dquote +:+ "Request participants" +:+ dquote
                        +:+ " = currentUser()"]
      else jqlParts ++ ["reviewer = currentUser()"]
    else jqlParts in
  if decide (length jqlParts = 0) then jqlParts ++ ["assignee = currentUser()"]
  else jqlParts.

Definition excludedStatusList `{Host} (s : Settings) : list string :=
  filter (λ status, status ≠ "")
         (trim <$> split [comma_char] (excludedStatuses s)).

(** The two [replace] calls on a status name. *)
Definition escaped (status : string) : string :=
  replaceAll dquote_char (backslash +:+ dquote)
    (replaceAll backslash_char (backslash +:+ backslash) status).

Definition escapeStatus (status : string) : string :=
  dquote +:+ escaped status +:+ dquote.

Definition jql `{Host} (s : Settings) : string :=
  let excludedStatuses := excludedStatusList s in
  let escapedStatuses := escapeStatus <$> excludedStatuses in
  if decide (0 < length excludedStatuses) then
    "(" +:+ String.concat " OR " (jqlParts s) +:+ ") AND status NOT IN ("
    +:+ String.concat ", " escapedStatuses
    +:+ ") ORDER BY priority DESC, updated DESC"
  else
    "(" +:+ String.concat " OR " (jqlParts s)
    +:+ ") ORDER BY priority DESC, updated DESC".

(** An issue of the search response, with the fields [transformTasks] reads
    for the flattened task; the optional ones are read with [?.]. *)
Record Issue := mkIssue {
  issue_id : string;
  issue_key : key;
  issue_summary : string;
  issue_status_name : string;
  issue_statusCategory_name : JsonText;
  issue_priority_name : JsonText;
  issue_issuetype_name : JsonText
}.

(** [value || fallback] *)
Definition or_else (value : JsonText) (fallback : string) : string :=
  match value with
  | Text s => if truthy s then s else fallback
  | _ => fallback
  end.

Definition transformTasks (s : Settings) (issues : list Issue) : list Task :=
  let baseUrl := stripSlash (jiraUrl s) in
  (λ issue,
     mkTask (issue_id issue) (issue_key issue) (issue_summary issue)
            (issue_status_name issue)
            (or_else (issue_statusCategory_name issue) "To Do")
            (or_else (issue_priority_name issue) "Medium")
            (or_else (issue_issuetype_name issue) "Task")
            (baseUrl +:+ "/browse/" +:+ issue_key issue)) <$> issues.

(** The response to the search request; [search_data] is the outcome of
    [response.json()] and of reading its issues: the issues, or the message
    of the exception. *)
Record SearchResponse := mkSearchResponse {
  search_status : nat;
  search_statusText : string;
  search_text : option string;
  search_errorJson : option ErrorJson;
  search_data : string + list Issue
}.

Definition transformed (s : Settings) (r : SearchResponse) : Response :=
  mkResponse (search_status r) (search_statusText r) (search_text r)
             (search_errorJson r)
             (match search_data r with
              | inl message => inl message
              | inr issues => inr (transformTasks s issues)
              end).

(** [searchTasks]: the new [this.settings] and what the promise settles
    with. [read] is handed to the [loadSettings] of [searchTasks] and [read']
    to the one of [getCurrentUser]; [identity] and [fetched] are the outcomes
    of the two requests. *)
Definition searchTasks `{Host} (forceReload : bool)
  (settings : option Settings) (read read' : option Sync)
  (identity : string + IdentityResponse) (fetched : string + SearchResponse)
  : option Settings * SearchResult :=
  let settings := loadSettings forceReload settings read in
  match settings with
  | None => (settings, SearchErr (typeErrorMessage "jiraUrl"))
  | Some s =>
      if negb (truthy (jiraUrl s)) then
        (settings, SearchErr "JIRA URL not configured")
      else
        let '(settings, userKey) := getCurrentUserKey settings read' identity in
        match userKey, settings with
        | inl message, _ => (settings, SearchErr message)
        | inr _, None => (settings, SearchErr (typeErrorMessage "includeAssigned"))
        | inr _, Some s =>
            (settings,
             match fetched with
             | inl message => SearchErr message
             | inr response => searchTasks_response (transformed s response)
             end)
        end
  end.

(** What [testConnection] resolves with. *)
Record TestResult := mkTestResult {
  success : bool;
  message : string
}.

(** [`${user.displayName || user.name}`] *)
Definition shown_name (user : User) : string :=
  let name_text :=
    match name user with
    | Absent => "undefined"
    | Null => "null"
    | Text s => s
    end in
  match displayName user with
  | Text s => if truthy s then s else name_text
  | _ => name_text
  end.

Definition testConnection `{Host} (settings : option Settings)
  (read read' : option Sync) (fetched : string + IdentityResponse)
  : option Settings * TestResult :=
  let failed (message : string) :=
    mkTestResult false (if truthy message then message
                        else "Connection failed") in
  let settings := loadSettings false settings read in
  match settings with
  | None => (settings, failed (typeErrorMessage "jiraUrl"))
  | Some s =>
      if negb (truthy (jiraUrl s)) then
        (settings, mkTestResult false "Please configure JIRA URL first")
      else
        let '(settings, user) := getCurrentUser settings read' fetched in
        (settings,
         match user with
         | inr (Some user) =>
             mkTestResult true ("Connected as " +:+ shown_name user)
         | inr None => failed (nullErrorMessage "displayName")
         | inl message => failed message
         end)
  end.

End JiraAPI.

(** ** The options page *)

Module Options.

(** The values of the inputs of the page; [maxTasks] is what [parseInt]
    makes of the text of its input, [None] for [NaN]. *)
Record Form := mkForm {
  jiraType : string;
  jiraUrl : string;
  username : string;
  includeAssigned : bool;
  includeReviewer : bool;
  excludedStatuses : string;
  maxTasks : option Z;
  showPriority : bool;
  showStatus : bool;
  autoRefresh : bool
}.

(** [loadSettings]: the form filled from the storage, with the defaults. *)
Definition loadSettings (store : Sync) : Form :=
  mkForm (default "cloud" (sync_jiraType store))
         (default "" (sync_jiraUrl store))
         (default "" (sync_username store))
         (default true (sync_includeAssigned store))
         (default true (sync_includeReviewer store))
         (default "Done, Closed, Resolved" (sync_excludedStatuses store))
         (default (Some 50%Z) (sync_maxTasks store))
         (default true (sync_showPriority store))
         (default true (sync_showStatus store))
         (default true (sync_autoRefresh store)).

(** What [saveSettings] leaves: the storage, the message and type given to
    [showStatus], and the actions of the messages sent. *)
Record Outcome := mkOutcome {
  stored : Sync;
  status_message : string;
  status_type : string;
  sent : list string
}.

(** [saveSettings]. [parses url] tells whether [new URL(url)] succeeds,
    [lastError] is the message of [chrome.runtime.lastError] in the callback
    of [set], [None] when the write succeeded; a write that failed is taken
    to leave the storage as it was. *)
Definition saveSettings `{Host} (parses : string → bool) (form : Form)
  (lastError : option string) (store : Sync) : Outcome :=
  let jiraUrl := trim (jiraUrl form) in
  let username := trim (username form) in
  if negb (truthy jiraUrl) then
    mkOutcome store "Please enter a JIRA URL" "error" []
  else
    let jiraUrl :=
      if negb (String.prefix "http://" jiraUrl)
         && negb (String.prefix "https://" jiraUrl)
      then "https://" +:+ jiraUrl else jiraUrl in
    if negb (parses jiraUrl) then
      mkOutcome store "Please enter a valid URL" "error" []
    else
      match lastError with
      | Some message =>
          mkOutcome store ("Failed to save settings: " +:+ message) "error" []
      | None =>
          mkOutcome
            (mkSync (Some (jiraType form)) (Some jiraUrl) (Some username)
                    (Some (includeAssigned form)) (Some (includeReviewer form))
                    (Some (excludedStatuses form)) (Some (maxTasks form))
                    (Some (showPriority form)) (Some (showStatus form))
                    (Some (autoRefresh form)))
            "Settings saved successfully!" "success" ["settings-updated"]
      end.

(** The statuses listed in the text area, as [toggleStatus] reads them. *)
Definition currentStatuses `{Host} (text : string) : list string :=
  filter (λ s, s ≠ "") (trim <$> split [comma_char; newline_char] text).

(** The list [toggleStatus] joins: the status is pushed when no entry
    equals it up to case, else the first such entry is spliced out. *)
Definition toggled `{Host} (status : string) (statuses : list string)
  : list string :=
  match list_find (λ s, toLowerCase s = toLowerCase status) statuses with
  | None => statuses ++ [status]
  | Some (index, _) => delete index statuses
  end.

(** [toggleStatus]: the new text of the text area. *)
Definition toggleStatus `{Host} (status : string) (text : string) : string :=
  String.concat ", " (toggled status (currentStatuses text)).

(** [updateStatusButtons]: whether the button of [status] is active. *)
Definition active `{Host} (status : string) (text : string) : bool :=
  let currentStatuses :=
    filter (λ s, s ≠ "")
           ((λ s, toLowerCase (trim s))
              <$> split [comma_char; newline_char] text) in
  bool_decide (toLowerCase status ∈ currentStatuses).

End Options.

(** ** The background script *)

Module Background.

(** [{ received: true }] *)
Inductive Response := Received.

(** The listener: the actions of the messages it sends and its answer. *)
Definition onMessage (action : string) : list string * option Response :=
  if decide (action = "settings-updated")
  then (["reload-tasks"], Some Received)
  else ([], None).

End Background.

(** The messages of the options page reach the panel and the background
    script, whose own messages reach the panel. *)
Definition broadcast (actions : list string) (w : World) : World :=
  let relayed := actions ≫= λ action, (Background.onMessage action).1 in
  run (Message <$> (actions ++ relayed)) w.

(** ** Vocabulary of the further properties *)

(** Reading a string literal of the query whose body is [s]: a backslash
    takes the next character with it, and the literal must neither meet a
    double quote on its own nor end after a pending backslash. *)
Fixpoint literal_body (pending : bool) (s : string) : bool :=
  match s with
  | EmptyString => negb pending
  | String c s' =>
      if pending then literal_body false s'
      else if bool_decide (c = backslash_char) then literal_body true s'
      else if bool_decide (c = dquote_char) then false
      else literal_body false s'
  end.

(** The text a literal body stands for. *)
Fixpoint unescaped (pending : bool) (s : string) : string :=
  match s with
  | EmptyString => ""
  | String c s' =>
      if pending then String c (unescaped false s')
      else if bool_decide (c = backslash_char) then unescaped true s'
      else String c (unescaped false s')
  end.

(** A status as the buttons and the text area hold it once parsed: the host
    leaves it alone when it trims it, also behind the blank that [join] puts
    in front, and it has no separator in it. *)
Definition plain `{Host} (s : string) : Prop :=
  s ≠ "" ∧ trim s = s ∧ trim (" " +:+ s) = s ∧
  split [comma_char; newline_char] s = [s].

(** The events that are not the callback of [setupAutoRefresh]. *)
Definition keeps_timer (e : Event) : Prop :=
  match e with
  | AutoRefreshRead _ => False
  | _ => True
  end.


(** * Properties *)

(** Settles a closed decidable goal by evaluation. *)
Ltac decided := refine (bool_decide_unpack _ _); vm_compute; exact I.

(** ** The reconcile step *)

Section filters.
Context {A : Type} (P Q : A → Prop)
        `{!∀ x, Decision (P x), !∀ x, Decision (Q x)}.

Lemma filter_ext_in (l : list A) :
  (∀ x, x ∈ l → (P x ↔ Q x)) → filter P l = filter Q l.
Proof.
  induction l as [|x l IH]; intros Hl; [done|].
  rewrite !filter_cons. rewrite IH.
  - destruct (decide (P x)) as [HP|HP], (decide (Q x)) as [HQ|HQ];
      try done; exfalso.
    + apply HQ, (Hl x); [left|done].
    + apply HP, (Hl x); [left|done].
  - intros y Hy. apply Hl. by right.
Qed.

Lemma filter_all (l : list A) : (∀ x, x ∈ l → P x) → filter P l = l.
Proof.
  induction l as [|x l IH]; intros Hl; [done|].
  rewrite filter_cons_True; [|apply Hl; left].
  f_equal. apply IH. intros y Hy. apply Hl. by right.
Qed.

Lemma filter_none (l : list A) : (∀ x, x ∈ l → ¬ P x) → filter P l = [].
Proof.
  induction l as [|x l IH]; intros Hl; [done|].
  rewrite filter_cons_False; [|apply Hl; left].
  apply IH. intros y Hy. apply Hl. by right.
Qed.
End filters.

Lemma reconcile_runs O F : reconcile O F = survivors O F ++ arrivals O F.
Proof.
  unfold reconcile, survivors, arrivals.
  destruct (decide (length O = 0)) as [HO|HO].
  - apply nil_length_inv in HO as ->. simpl.
    symmetry. apply filter_all. intros k _. apply not_elem_of_nil.
  - f_equal.
    + apply list_filter_iff. intros k. by rewrite elem_of_list_to_set.
    + apply filter_ext_in. intros k Hk.
      rewrite list_elem_of_filter, elem_of_list_to_set. tauto.
Qed.

Lemma elem_of_reconcile O F k : k ∈ reconcile O F ↔ k ∈ keys F.
Proof.
  rewrite reconcile_runs. unfold survivors, arrivals.
  rewrite elem_of_app, !list_elem_of_filter.
  destruct (decide (k ∈ O)); tauto.
Qed.

Lemma occurrences_app k l1 l2 :
  occurrences k (l1 ++ l2) = occurrences k l1 + occurrences k l2.
Proof. unfold occurrences. by rewrite filter_app, length_app. Qed.

Lemma occurrences_not_elem_of k l : k ∉ l → occurrences k l = 0.
Proof.
  intros Hk. unfold occurrences. rewrite filter_none; [done|].
  intros x Hx ->. done.
Qed.

Lemma occurrences_NoDup k l : NoDup l → k ∈ l → occurrences k l = 1.
Proof.
  unfold occurrences. induction 1 as [|x l Hx Hl IH]; intros Hk.
  - by apply elem_of_nil in Hk.
  - rewrite filter_cons. destruct (decide (x = k)) as [->|Hne].
    + simpl. f_equal. by apply occurrences_not_elem_of.
    + apply elem_of_cons in Hk as [->|Hk]; [done|]. by apply IH.
Qed.

Lemma reconcile_NoDup O F : NoDup O → NoDup (keys F) → NoDup (reconcile O F).
Proof.
  intros HO HF. rewrite reconcile_runs. unfold survivors, arrivals.
  apply NoDup_app. split_and!.
  - by apply NoDup_filter.
  - intros k. rewrite !list_elem_of_filter. tauto.
  - by apply NoDup_filter.
Qed.

Lemma reconcile_occurrences O F k :
  NoDup O → NoDup (keys F) → k ∈ keys F → occurrences k (reconcile O F) = 1.
Proof.
  intros HO HF Hk. apply occurrences_NoDup.
  - by apply reconcile_NoDup.
  - by apply elem_of_reconcile.
Qed.

Lemma reconcile_nil_r O : reconcile O [] = [].
Proof.
  rewrite reconcile_runs. unfold survivors, arrivals. simpl.
  rewrite filter_none; [done|]. intros k _. apply not_elem_of_nil.
Qed.

Lemma reconcile_fixed O F : reconcile (reconcile O F) F = reconcile O F.
Proof.
  rewrite (reconcile_runs (reconcile O F) F). unfold survivors, arrivals.
  rewrite filter_all by (intros k; by rewrite elem_of_reconcile).
  rewrite filter_none; [by rewrite app_nil_r|].
  intros k Hk. rewrite elem_of_reconcile. tauto.
Qed.

Lemma loadTasks_searched_order F saved w :
  taskOrder (tm (loadTasks_searched (SearchOk F) saved w).1)
  = reconcile (taskOrder (tm w)) F.
Proof. reflexivity. Qed.

Example reconcile_scenario :
  reconcile ["A"; "B"; "C"] [issue "B"; issue "D"] = ["B"; "D"].
Proof. vm_compute. reflexivity. Qed.

Example reconcile_initial :
  reconcile [] [issue "X"; issue "Y"; issue "Z"] = ["X"; "Y"; "Z"].
Proof. reflexivity. Qed.

(** C1: for every non-empty fetched list [F] with pairwise distinct keys and
    every prior order list, which as an order list holds no key twice, the
    order that [loadTasks] holds after its reconcile step contains each key
    of [F] exactly once, and is the keys of the prior order that occur in
    [F], in their order, followed by the keys of [F] the prior order lacks,
    in the order of [F]. *)
Theorem loadTasks_reconciles (F : list Task) (saved : bool) (w : World) :
  F ≠ [] → NoDup (keys F) → NoDup (taskOrder (tm w)) →
  reconciled (taskOrder (tm w)) F
             (taskOrder (tm (loadTasks_searched (SearchOk F) saved w).1)).
Proof.
  intros _ HF HO. rewrite loadTasks_searched_order. split.
  - intros k Hk. by apply reconcile_occurrences.
  - apply reconcile_runs.
Qed.

Lemma loadTasks_reconciles_witness :
  let F := [issue "B"; issue "D"] in
  let w := holding ["A"; "B"; "C"] in
  (F ≠ [] ∧ NoDup (keys F) ∧ NoDup (taskOrder (tm w))) ∧
  reconciled (taskOrder (tm w)) F
             (taskOrder (tm (loadTasks_searched (SearchOk F) true w).1)).
Proof.
  assert (HF : NoDup (keys [issue "B"; issue "D"])).
  { decided. }
  assert (HO : NoDup (taskOrder (tm (holding ["A"; "B"; "C"])))).
  { decided. }
  split; [split_and!; [discriminate|exact HF|exact HO]|].
  apply (loadTasks_reconciles [issue "B"; issue "D"] true
           (holding ["A"; "B"; "C"])); [discriminate|exact HF|exact HO].
Defined.

(** C2: reconciling the result again with the same fetched issues changes
    nothing, in the function and in [loadTasks] run twice; and the new order
    is determined by the prior order and the fetched issues alone. *)
Theorem reconcile_stable (O : list key) (F : list Task) (saved saved' : bool)
  (w w' : World) :
  reconcile (reconcile O F) F = reconcile O F ∧
  (let w1 := (loadTasks_searched (SearchOk F) saved w).1 in
   let w2 := (loadTasks_searched (SearchOk F) saved' w1).1 in
   taskOrder (tm w2) = taskOrder (tm w1)) ∧
  taskOrder (tm (loadTasks_searched (SearchOk F) saved
                   (with_tm (set_taskOrder O) w)).1)
  = taskOrder (tm (loadTasks_searched (SearchOk F) saved'
                     (with_tm (set_taskOrder O) w')).1).
Proof.
  split_and!.
  - apply reconcile_fixed.
  - cbv zeta. rewrite !loadTasks_searched_order. apply reconcile_fixed.
  - by rewrite !loadTasks_searched_order.
Qed.

(** ** The order list keeps its keys distinct *)

Lemma sortedTasks_sublist t : keys (sortedTasks t) `sublist_of` taskOrder t.
Proof.
  unfold sortedTasks. induction (taskOrder t) as [|k O IH]; [done|].
  simpl. destruct (List.find _ _) as [x|] eqn:Hx; simpl.
  - apply find_some in Hx as [_ Hk%bool_decide_eq_true]. rewrite Hk.
    by apply sublist_skip.
  - by apply sublist_cons.
Qed.

Lemma renderTasks_cards w :
  NoDup (taskOrder (tm w)) → NoDup (taskList_cards (dom (renderTasks w))).
Proof.
  intros HO. unfold renderTasks. simpl. case_decide; simpl.
  - apply NoDup_nil_2.
  - eapply sublist_NoDup; [exact HO|apply sortedTasks_sublist].
Qed.

Lemma handleDragOver_cards from to w :
  taskList_cards (dom (handleDragOver from to w)) ≡ₚ taskList_cards (dom w).
Proof.
  unfold handleDragOver.
  destruct (taskList_cards (dom w) !! from) as [c|] eqn:Hc; [|done].
  simpl. rewrite <-Permutation_middle, take_drop.
  symmetry. by apply delete_Permutation.
Qed.

Lemma resume_duplicate_free n a r saved w :
  (∀ ts, r = SearchOk ts → NoDup (keys ts)) →
  duplicate_free w → duplicate_free (resume n a r saved w).
Proof.
  intros Hr (HO & Hst & Hcs). unfold resume.
  destruct (suspended (browser w) !! n) as [[a' caller]|]; [|done].
  destruct (decide (a' = a)) as [->|]; [|done].
  destruct a; simpl.
  - destruct r as [ts|message]; simpl.
    + split_and!; simpl; [|destruct saved; simpl|]; try done;
        by apply reconcile_NoDup, Hr.
    + destruct caller; done.
  - assert (Hcards :
      NoDup (taskList_cards (dom (loadTasks_saved
        (with_browser (λ b, set_suspended (delete n (suspended b)) b) w)).1))).
    { unfold loadTasks_saved. simpl. case_decide; simpl;
        by apply (renderTasks_cards
          (with_browser (λ b, set_suspended (delete n (suspended b)) b) w)). }
    revert Hcards. unfold loadTasks_saved, renderTasks. simpl.
    repeat case_decide; destruct caller; done.
Qed.

Lemma step_duplicate_free w e :
  distinct_issues e → duplicate_free w → duplicate_free (step w e).
Proof.
  intros He Hw. pose proof Hw as (HO & Hst & Hcs). destruct e; simpl.
  - unfold call_loadTasks, loadTasks_enter.
    destruct (isLoading (tm w)); done.
  - case_decide; [|done]. unfold call_loadTasks, loadTasks_enter.
    destruct (isLoading (tm w)); done.
  - case_decide; [|done]. unfold call_loadTasks, loadTasks_enter.
    destruct (isLoading (tm w)); done.
  - apply resume_duplicate_free; [|done]. by intros ts ->.
  - apply resume_duplicate_free; [|done]. intros ts [= <-]. apply NoDup_nil_2.
  - split_and!; try by (unfold handleDragOver; destruct (_ !! _)).
    by rewrite handleDragOver_cards.
  - split_and!; simpl; [done| |done]. by destruct saved.
  - unfold setupAutoRefresh.
    destruct (refreshInterval (tm w)), result; simpl; try done;
      case_decide; done.
  - unfold loadTaskOrder, local_get. by destruct succeeds.
Qed.

Lemma run_duplicate_free es w :
  Forall distinct_issues es → duplicate_free w → duplicate_free (run es w).
Proof.
  intros Hes. revert w. induction Hes as [|e es He _ IH]; intros w Hw; [done|].
  apply IH. by apply step_duplicate_free.
Qed.

(** From a stored order and a panel without repeated keys, with a tracker
    that answers with distinct keys, the order list never repeats a key. *)
Lemma reachable_order_NoDup stored d es :
  NoDup (default [] stored) → NoDup (taskList_cards d) →
  Forall distinct_issues es →
  NoDup (taskOrder (tm (run es (initial stored d)))).
Proof.
  intros Hst Hd Hes. apply (run_duplicate_free es (initial stored d) Hes).
  split_and!; [apply NoDup_nil_2|done|done].
Qed.

(** ** Invariants of the event loop *)

Lemma single_flight_initial stored d : single_flight (initial stored d).
Proof. reflexivity. Qed.

Lemma timer_owned_initial stored d : timer_owned (initial stored d).
Proof. reflexivity. Qed.

Lemma call_loadTasks_single_flight caller forceReload w :
  single_flight w → single_flight (call_loadTasks caller forceReload w).
Proof.
  unfold single_flight, call_loadTasks, loadTasks_enter.
  destruct w as [[ts o l ri] d [st sc iv ni sr su rp]]; simpl.
  destruct l; simpl.
  - destruct caller; simpl; done.
  - destruct su as [|? [|? ?]]; simpl; done.
Qed.

Lemma resume_single_flight n a r saved w :
  single_flight w → single_flight (resume n a r saved w).
Proof.
  unfold single_flight, resume.
  destruct w as [[ts o l ri] d [st sc iv ni sr su rp]]; simpl.
  destruct su as [|[a' caller] [|? ?]]; simpl; try done.
  destruct n as [|n]; simpl; [|done].
  destruct (decide (a' = a)) as [->|]; simpl; [|done].
  intros ->. destruct a; simpl.
  - destruct r; simpl; [done|]. destruct caller; done.
  - unfold loadTasks_saved, renderTasks; simpl.
    repeat case_decide; destruct caller; done.
Qed.

Lemma step_single_flight w e : single_flight w → single_flight (step w e).
Proof.
  destruct e; simpl.
  - apply call_loadTasks_single_flight.
  - case_decide; [apply call_loadTasks_single_flight|done].
  - case_decide; [apply call_loadTasks_single_flight|done].
  - apply resume_single_flight.
  - apply resume_single_flight.
  - unfold handleDragOver. by destruct (_ !! _).
  - done.
  - unfold single_flight, setupAutoRefresh.
    destruct w as [[ts o l ri] d b]; simpl.
    destruct ri, result; simpl; try done; case_decide; done.
  - unfold loadTaskOrder, local_get. by destruct succeeds.
Qed.

Lemma run_single_flight es w : single_flight w → single_flight (run es w).
Proof.
  revert w. induction es as [|e es IH]; intros w Hw; [done|].
  apply IH. by apply step_single_flight.
Qed.

Lemma call_loadTasks_timers caller forceReload w :
  timer_owned w → timer_owned (call_loadTasks caller forceReload w).
Proof.
  unfold timer_owned, call_loadTasks, loadTasks_enter.
  destruct w as [[ts o l ri] d b]; simpl.
  destruct l; simpl; [destruct caller|]; done.
Qed.

Lemma resume_timers n a r saved w :
  timer_owned w → timer_owned (resume n a r saved w).
Proof.
  unfold timer_owned, resume.
  destruct w as [[ts o l ri] d [st sc iv ni sr su rp]]; simpl.
  destruct (su !! n) as [[a' caller]|]; [|done].
  destruct (decide (a' = a)) as [->|]; [|done].
  destruct a; simpl.
  - destruct r; simpl; [done|]. destruct caller; done.
  - unfold loadTasks_saved, renderTasks; simpl.
    repeat case_decide; destruct caller; done.
Qed.

Lemma setupAutoRefresh_timers result w :
  timer_owned w → timer_owned (setupAutoRefresh result w).
Proof.
  unfold timer_owned, setupAutoRefresh.
  destruct w as [[ts o l ri] d [st sc iv ni sr su rp]]; simpl.
  intros Hw.
  assert (Hiv : match ri with Some i => iv ∖ {[i]} | None => iv end = ∅).
  { destruct ri as [i|]; [|done].
    destruct Hw as [-> _]. apply difference_diag_L. }
  destruct ri as [i|], result as [|autoRefresh]; simpl; try done;
    case_decide; simpl; try done;
    rewrite Hiv, (right_id_L ∅ (∪)); (split; [done | lia]).
Qed.

Lemma step_timers w e : timer_owned w → timer_owned (step w e).
Proof.
  destruct e; simpl.
  - apply call_loadTasks_timers.
  - case_decide; [apply call_loadTasks_timers|done].
  - case_decide; [apply call_loadTasks_timers|done].
  - apply resume_timers.
  - apply resume_timers.
  - unfold handleDragOver. by destruct (_ !! _).
  - done.
  - apply setupAutoRefresh_timers.
  - unfold loadTaskOrder, local_get. by destruct succeeds.
Qed.

Lemma run_timers es w : timer_owned w → timer_owned (run es w).
Proof.
  revert w. induction es as [|e es IH]; intros w Hw; [done|].
  apply IH. by apply step_timers.
Qed.

(** ** The single-flight guard *)

Lemma single_flight_idle w :
  single_flight w → isLoading (tm w) = false → suspended (browser w) = [].
Proof.
  unfold single_flight. destruct (suspended (browser w)) as [|? [|? ?]];
    [done| |done].
  intros -> ?. done.
Qed.

Lemma loadTasks_enter_busy forceReload w :
  isLoading (tm w) = true → loadTasks_enter forceReload w = (w, Return Normal).
Proof. unfold loadTasks_enter. by intros ->. Qed.

(** C3: once a first call of [loadTasks] is in flight, a second call is a
    no-op, so the pair makes exactly one call of [searchTasks]; whatever
    happens next, any call made while the busy flag is set is a no-op and at
    most one activation of [loadTasks] is ever in flight. *)
Theorem loadTasks_single_flight (stored : option (list key)) (d : Dom)
  (es : list Event) (f1 f2 : bool) (c1 c2 : Caller) :
  let w := run es (initial stored d) in
  isLoading (tm w) = false →
  let w1 := call_loadTasks c1 f1 w in
  let w2 := call_loadTasks c2 f2 w1 in
  isLoading (tm w1) = true ∧
  loadTasks_enter f2 w1 = (w1, Return Normal) ∧
  search_calls (browser w2) = search_calls (browser w) ++ [f1] ∧
  suspended (browser w2) = [(AwaitSearch, c1)] ∧
  ∀ (es' : list Event) (f : bool),
    let w' := run es' w2 in
    length (suspended (browser w')) ≤ 1 ∧
    (if isLoading (tm w') then loadTasks_enter f w' = (w', Return Normal)
     else suspended (browser w') = []).
Proof.
  intros w Hidle w1 w2.
  assert (Hw : single_flight w).
  { apply run_single_flight, single_flight_initial. }
  pose proof (single_flight_idle w Hw Hidle) as Hsu.
  assert (Hw1 : isLoading (tm w1) = true).
  { subst w1. unfold call_loadTasks, loadTasks_enter. by rewrite Hidle. }
  assert (Hw2 : single_flight w2).
  { by do 2 apply call_loadTasks_single_flight. }
  split_and!.
  - done.
  - by apply loadTasks_enter_busy.
  - subst w2. unfold call_loadTasks at 1.
    rewrite (loadTasks_enter_busy _ _ Hw1).
    transitivity (search_calls (browser w1)); [by destruct c2|].
    subst w1. unfold call_loadTasks, loadTasks_enter. by rewrite Hidle.
  - subst w2. unfold call_loadTasks at 1.
    rewrite (loadTasks_enter_busy _ _ Hw1).
    transitivity (suspended (browser w1)); [by destruct c2|].
    subst w1. unfold call_loadTasks, loadTasks_enter.
    rewrite Hidle. simpl. by rewrite Hsu.
  - intros es' f w'.
    assert (Hw' : single_flight w') by by apply run_single_flight.
    split.
    + unfold single_flight in Hw'.
      destruct (suspended (browser w')) as [|? [|? ?]]; simpl; [lia|lia|done].
    + destruct (isLoading (tm w')) eqn:Hl.
      * by apply loadTasks_enter_busy.
      * by apply single_flight_idle.
Qed.

Lemma loadTasks_single_flight_witness :
  let w := run [Message "reload-tasks"; SearchSettled 0 (SearchOk []) true;
                SaveSettled 0] (initial None blank) in
  isLoading (tm w) = false ∧
  search_calls (browser (call_loadTasks Discarded false
                           (call_loadTasks Discarded true w)))
  = search_calls (browser w) ++ [true].
Proof.
  split; [reflexivity|].
  apply (loadTasks_single_flight None blank
           [Message "reload-tasks"; SearchSettled 0 (SearchOk []) true;
            SaveSettled 0] true false Discarded Discarded).
  reflexivity.
Defined.

(** ** The auto-refresh timer *)

Lemma setupAutoRefresh_handle result w :
  refreshInterval (tm (setupAutoRefresh result w))
  = if enabled result then Some (next_interval (browser w)) else None.
Proof.
  unfold setupAutoRefresh.
  destruct w as [[ts o l ri] d [st sc iv ni sr su rp]]; simpl.
  destruct ri, result as [|autoRefresh]; simpl; try done;
    unfold bool_decide; destruct (decide_rel _ _ _); done.
Qed.

Lemma timer_owned_size w :
  timer_owned w →
  size (intervals (browser w))
  = match refreshInterval (tm w) with Some _ => 1 | None => 0 end.
Proof.
  unfold timer_owned. destruct (refreshInterval (tm w)).
  - intros [-> _]. apply size_singleton.
  - intros ->. apply size_empty.
Qed.

(** C6: however the calls of [setupAutoRefresh] are interleaved with the
    other events, at most one timer is active; after two calls in a row
    exactly one timer is active when the second finds auto-refresh enabled
    and none when it finds it disabled, and the timer the first call created
    is cancelled by the second. *)
Theorem setupAutoRefresh_single_timer (stored : option (list key)) (d : Dom)
  (es : list Event) (r1 r2 : GetResult bool) :
  let w := run es (initial stored d) in
  let w1 := setupAutoRefresh r1 w in
  let w2 := setupAutoRefresh r2 w1 in
  size (intervals (browser w)) ≤ 1 ∧
  size (intervals (browser w2)) = (if enabled r2 then 1 else 0) ∧
  (match refreshInterval (tm w1) with
   | Some i => (i ∉ intervals (browser w2)) ∧ refreshInterval (tm w2) ≠ Some i
   | None => True
   end).
Proof.
  intros w w1 w2.
  assert (Hw : timer_owned w) by apply run_timers, timer_owned_initial.
  assert (Hw1 : timer_owned w1) by by apply setupAutoRefresh_timers.
  assert (Hw2 : timer_owned w2) by by apply setupAutoRefresh_timers.
  split_and!.
  - rewrite (timer_owned_size w Hw). destruct (refreshInterval (tm w)); lia.
  - rewrite (timer_owned_size w2 Hw2). subst w2.
    rewrite setupAutoRefresh_handle. by destruct (enabled r2).
  - pose proof (setupAutoRefresh_handle r2 w1) as Hh. fold w2 in Hh.
    unfold timer_owned in Hw1, Hw2.
    destruct (refreshInterval (tm w1)) as [i|]; [|done].
    destruct Hw1 as [_ Hlt]. rewrite Hh in Hw2 |- *.
    destruct (enabled r2).
    + destruct Hw2 as [-> _]. split.
      * rewrite elem_of_singleton. lia.
      * intros [=]. lia.
    + rewrite Hw2. split; [apply not_elem_of_empty|done].
Qed.

Example setupAutoRefresh_twice :
  intervals (browser (run [AutoRefreshRead (Items None);
                           AutoRefreshRead (Items (Some true))]
                          (initial None blank)))
  = {[2%positive]}.
Proof. vm_compute. reflexivity. Qed.

(** ** Errors of the tracker client *)

Lemma loadTasks_idle forceReload r saved w :
  isLoading (tm w) = false →
  loadTasks forceReload r saved w
  = match r with
    | SearchErr message =>
        ((loadTasks_searched r saved (loadTasks_enter forceReload w).1).1,
         Fulfilled)
    | SearchOk _ =>
        ((loadTasks_saved
            (loadTasks_searched r saved (loadTasks_enter forceReload w).1).1).1,
         Fulfilled)
    end.
Proof.
  intros Hidle. unfold loadTasks, loadTasks_enter. rewrite Hidle.
  destruct r; reflexivity.
Qed.

(** C9: the promise of [loadTasks] is fulfilled whatever [searchTasks]
    settles with and whether or not a fetch was in flight; no segment of it
    ends by an exception; and the message of a tracker error ends up in the
    error element instead. *)
Theorem loadTasks_always_fulfills (forceReload : bool) (r : SearchResult)
  (saved : bool) (w : World) :
  (loadTasks forceReload r saved w).2 = Fulfilled ∧
  (∀ message, (loadTasks_enter forceReload w).2 ≠ Return (Throw message)) ∧
  (∀ a message, (loadTasks_resume a r saved w).2 ≠ Return (Throw message)) ∧
  (let w' := (loadTasks forceReload r saved w).1 in
   if isLoading (tm w) then w' = w
   else match r with
        | SearchErr message =>
            errorMessage_text (dom w') = message ∧
            errorMessage_hidden (dom w') = false
        | SearchOk _ => errorMessage_hidden (dom w') = true
        end).
Proof.
  split_and!.
  - unfold loadTasks, loadTasks_enter.
    destruct (isLoading (tm w)); [done|]. by destruct r.
  - intros message. unfold loadTasks_enter. by destruct (isLoading (tm w)).
  - intros [] message; [by destruct r|done].
  - cbv zeta. destruct (isLoading (tm w)) eqn:Hl.
    + unfold loadTasks. by rewrite loadTasks_enter_busy.
    + rewrite loadTasks_idle by done. unfold loadTasks_enter. rewrite Hl.
      destruct r; simpl; [|done].
      unfold renderTasks; simpl. by repeat case_decide.
Qed.

Lemma searchTasks_401 jiraUrl r :
  jiraUrl ≠ "" → status r = 401 →
  searchTasks jiraUrl (inr r)
  = SearchErr "Not authenticated. Please log in to JIRA first.".
Proof.
  intros Hurl Hst. unfold searchTasks, truthy.
  rewrite bool_decide_true by done. simpl.
  unfold searchTasks_response, ok. rewrite Hst. reflexivity.
Qed.

(** C5: when the search is answered with status 401, the refresh ends with
    the busy flag cleared, the message shown tells the user to log in, and
    the tasks, the order list, the stored order and the rendered cards are
    the ones from before the refresh. *)
Theorem loadTasks_unauthorized (jiraUrl : string) (r : Response)
  (forceReload saved : bool) (w : World) :
  jiraUrl ≠ "" → status r = 401 → isLoading (tm w) = false →
  let result := loadTasks forceReload (searchTasks jiraUrl (inr r)) saved w in
  let w' := result.1 in
  result.2 = Fulfilled ∧
  isLoading (tm w') = false ∧
  errorMessage_hidden (dom w') = false ∧
  errorMessage_text (dom w')
  = "Not authenticated. Please log in to JIRA first." ∧
  includes (errorMessage_text (dom w')) "Not authenticated" = true ∧
  includes (errorMessage_text (dom w')) "log in" = true ∧
  tasks (tm w') = tasks (tm w) ∧
  taskOrder (tm w') = taskOrder (tm w) ∧
  stored_taskOrder (browser w') = stored_taskOrder (browser w) ∧
  taskList_cards (dom w') = taskList_cards (dom w).
Proof.
  intros Hurl Hst Hidle result w'. subst w' result.
  rewrite (searchTasks_401 _ _ Hurl Hst), loadTasks_idle by done.
  unfold loadTasks_enter. rewrite Hidle. simpl. split_and!; reflexivity.
Qed.

Lemma loadTasks_unauthorized_witness :
  let w := run [TaskOrderRead true; Refresh;
                SearchSettled 0 (SearchOk [issue "B"; issue "D"]) true;
                SaveSettled 0] (initial (Some ["D"; "B"]) blank) in
  let w' := (loadTasks true (searchTasks "https://jira.example.org"
                               (inr unauthorized)) true w).1 in
  ("https://jira.example.org" ≠ "" ∧ status unauthorized = 401 ∧
   isLoading (tm w) = false) ∧
  isLoading (tm w') = false ∧
  includes (errorMessage_text (dom w')) "log in" = true ∧
  taskOrder (tm w') = ["D"; "B"].
Proof.
  split; [split_and!; [discriminate|reflexivity|reflexivity]|].
  pose proof (loadTasks_unauthorized "https://jira.example.org" unauthorized
    true true
    (run [TaskOrderRead true; Refresh;
          SearchSettled 0 (SearchOk [issue "B"; issue "D"]) true;
          SaveSettled 0] (initial (Some ["D"; "B"]) blank))
    ltac:(discriminate) eq_refl eq_refl) as H.
  cbv zeta in H. destruct H as (_ & H1 & _ & _ & _ & H2 & _ & H3 & _).
  split_and!; [exact H1|exact H2|].
  rewrite H3. vm_compute. reflexivity.
Defined.

(** ** The reload message *)

Lemma advance_acknowledged caller wp :
  (∀ message, wp.2 ≠ Return (Throw message)) →
  only_acknowledged wp.1 → only_acknowledged (advance caller wp).
Proof.
  destruct wp as [w [[|message]|a]]; simpl; intros Hp Hw.
  - destruct caller; [done|]. apply Forall_app. split; [done|].
    by apply Forall_singleton.
  - by destruct (Hp message).
  - done.
Qed.

Lemma resume_acknowledged n a r saved w :
  only_acknowledged w → only_acknowledged (resume n a r saved w).
Proof.
  intros Hw. unfold resume.
  destruct (suspended (browser w) !! n) as [[a' caller]|]; [|done].
  destruct (decide (a' = a)) as [->|]; [|done].
  apply advance_acknowledged.
  - intros message. destruct a; [by destruct r|done].
  - destruct a; simpl; [destruct r; done|].
    unfold loadTasks_saved, renderTasks. simpl. by repeat case_decide.
Qed.

Lemma call_loadTasks_acknowledged caller forceReload w :
  only_acknowledged w → only_acknowledged (call_loadTasks caller forceReload w).
Proof.
  intros Hw. apply advance_acknowledged.
  - intros message. unfold loadTasks_enter. by destruct (isLoading (tm w)).
  - unfold loadTasks_enter. by destruct (isLoading (tm w)).
Qed.

Lemma step_acknowledged w e : only_acknowledged w → only_acknowledged (step w e).
Proof.
  intros Hw. destruct e; simpl.
  - by apply call_loadTasks_acknowledged.
  - case_decide; [by apply call_loadTasks_acknowledged|done].
  - case_decide; [by apply call_loadTasks_acknowledged|done].
  - by apply resume_acknowledged.
  - by apply resume_acknowledged.
  - unfold handleDragOver. by destruct (_ !! _).
  - done.
  - unfold setupAutoRefresh.
    destruct (refreshInterval (tm w)), result; simpl; try done;
      case_decide; done.
  - unfold loadTaskOrder, local_get. by destruct succeeds.
Qed.

Lemma run_acknowledged es w : only_acknowledged w → only_acknowledged (run es w).
Proof.
  revert w. induction es as [|e es IH]; intros w Hw; [done|].
  apply IH. by apply step_acknowledged.
Qed.

(** C4, what the listener does when the refresh fails: the one reply it
    sends is the success acknowledgement, while the error is shown in the
    panel; the promise of [loadTasks] is fulfilled, the [catch] branch of the
    listener is never taken and no run of the panel sends an error reply. *)
Theorem reload_reply_on_failure (stored : option (list key)) (d : Dom)
  (message : string) (saved : bool) (es : list Event) :
  let w := run [Message "reload-tasks";
                SearchSettled 0 (SearchErr message) saved]
               (initial stored d) in
  replies (browser w) = [Reloaded] ∧
  errorMessage_text (dom w) = message ∧
  suspended (browser w) = [] ∧
  ReloadError message ∉ replies (browser (run es (initial stored d))).
Proof.
  split_and!; try reflexivity.
  intros Hin.
  assert (Hes : only_acknowledged (run es (initial stored d))).
  { apply run_acknowledged. apply Forall_nil_2. }
  unfold only_acknowledged in Hes. rewrite Forall_forall in Hes.
  by specialize (Hes _ Hin).
Qed.

Example reload_reply_401 :
  replies (browser (run
    [Message "reload-tasks";
     SearchSettled 0 (searchTasks "https://jira.example.org"
                        (inr unauthorized)) true]
    (initial None blank)))
  = [Reloaded].
Proof. vm_compute. reflexivity. Qed.

(** ** Restoring and replacing the order *)

(** C7, what [loadTaskOrder] does for each outcome of the storage read: it
    never rejects, and when the read succeeds its promise is fulfilled and
    the order list is the stored one, or empty when none is stored, as
    asked; but when the read fails the callback throws before [resolve], so
    the promise stays pending instead of being fulfilled with the empty
    list, and nothing changes. *)
Theorem loadTaskOrder_never_rejects (succeeds : bool) (w : World) :
  let result := loadTaskOrder succeeds w in
  (∀ message, result.2 ≠ Rejected message) ∧
  if succeeds then
    result.2 = Fulfilled ∧
    taskOrder (tm result.1)
    = match stored_taskOrder (browser w) with
      | Some order => order
      | None => []
      end
  else result.2 = Pending ∧ result.1 = w.
Proof.
  unfold loadTaskOrder, local_get. destruct succeeds; simpl.
  - split; [done|]. split; [done|]. by destruct (stored_taskOrder _).
  - done.
Qed.

(** A read that fails when the panel opens: [loadTaskOrder] does not
    complete, where [saveTaskOrder] resolves whether or not its write went
    through. *)
Lemma loadTaskOrder_failed_read :
  let result := loadTaskOrder false (initial (Some ["D"; "B"]) blank) in
  result.2 = Pending ∧ result.2 ≠ Fulfilled.
Proof. split; [reflexivity|discriminate]. Qed.

(** C8: [updateTaskOrder] makes the sequence of keys read from the cards the
    order list and hands exactly that sequence to the storage, which holds it
    once the write succeeds; the tasks and the order held before play no
    part. *)
Theorem updateTaskOrder_replaces (saved : bool) (w : World) (O : list key)
  (ts : list Task) :
  let newOrder := taskList_cards (dom w) in
  let w' := updateTaskOrder saved w in
  taskOrder (tm w') = newOrder ∧
  set_calls (browser w') = set_calls (browser w) ++ [newOrder] ∧
  stored_taskOrder (browser w')
  = (if saved then Some newOrder else stored_taskOrder (browser w)) ∧
  tasks (tm w') = tasks (tm w) ∧
  updateTaskOrder saved (with_tm (set_tasks ts) (with_tm (set_taskOrder O) w))
  = with_tm (set_tasks ts) w'.
Proof. split_and!; reflexivity. Qed.

Example updateTaskOrder_scenario :
  let w := run [Refresh;
                SearchSettled 0 (SearchOk [issue "B"; issue "D"]) true;
                SaveSettled 0; DragOver 1 0; Drop true]
               (initial None blank) in
  taskOrder (tm w) = ["D"; "B"] ∧
  stored_taskOrder (browser w) = Some ["D"; "B"] ∧
  set_calls (browser w) = [["B"; "D"]; ["D"; "B"]].
Proof. vm_compute. split_and!; reflexivity. Qed.

(** ** An empty fetch *)

(** C10: with a non-empty order list, a refresh whose search succeeds with
    no issue reconciles the order to the empty list and writes the empty
    list over the stored order, so that the next restore yields the empty
    list. *)
Theorem loadTasks_empty_fetch_erases (forceReload : bool) (w : World) :
  taskOrder (tm w) ≠ [] → isLoading (tm w) = false →
  let w' := (loadTasks forceReload (SearchOk []) true w).1 in
  reconcile (taskOrder (tm w)) [] = [] ∧
  taskOrder (tm w') = [] ∧
  set_calls (browser w') = set_calls (browser w) ++ [[]] ∧
  stored_taskOrder (browser w') = Some [] ∧
  taskOrder (tm (loadTaskOrder true w').1) = [].
Proof.
  intros _ Hidle w'. subst w'. rewrite loadTasks_idle by done.
  unfold loadTasks_enter. rewrite Hidle.
  pose proof (reconcile_nil_r (taskOrder (tm w))) as HO.
  split; [done|]. simpl. rewrite HO. split_and!; reflexivity.
Qed.

Lemma loadTasks_empty_fetch_erases_witness :
  let w := run [TaskOrderRead true] (initial (Some ["D"; "B"]) blank) in
  (taskOrder (tm w) ≠ [] ∧ isLoading (tm w) = false) ∧
  stored_taskOrder (browser (loadTasks false (SearchOk []) true w).1)
  = Some [].
Proof.
  split; [split; [discriminate|reflexivity]|].
  apply (loadTasks_empty_fetch_erases false
           (run [TaskOrderRead true] (initial (Some ["D"; "B"]) blank)));
    [discriminate|reflexivity].
Defined.

(** * Further properties *)

(** ** Rendering, dragging and refreshing *)

Lemma find_task_key (ts : list Task) (k : key) :
  match List.find (λ x, bool_decide (task_key x = k)) ts with
  | Some x => task_key x = k ∧ k ∈ keys ts
  | None => k ∉ keys ts
  end.
Proof.
  induction ts as [|t ts IH]; simpl.
  - apply not_elem_of_nil.
  - destruct (bool_decide (task_key t = k)) eqn:Ht.
    + apply bool_decide_eq_true in Ht. split; [done|]. rewrite <-Ht. left.
    + apply bool_decide_eq_false in Ht.
      destruct (List.find _ ts) as [x|].
      * destruct IH as [Hx Hin]. split; [done|]. by right.
      * rewrite not_elem_of_cons. split; [congruence|done].
Qed.

Lemma sortedTasks_keys (t : TaskManager) :
  keys (sortedTasks t) = filter (λ k, k ∈ keys (tasks t)) (taskOrder t).
Proof.
  unfold sortedTasks, keys. induction (taskOrder t) as [|k order IH]; [done|].
  simpl. pose proof (find_task_key (tasks t) k) as Hk.
  destruct (List.find _ (tasks t)) as [x|].
  - destruct Hk as [Hx Hin]. rewrite filter_cons_True by done.
    rewrite fmap_cons, Hx. f_equal. exact IH.
  - rewrite filter_cons_False by done. exact IH.
Qed.

Lemma renderTasks_cards_filter (w : World) :
  taskList_cards (dom (renderTasks w))
  = filter (λ k, k ∈ keys (tasks (tm w))) (taskOrder (tm w)).
Proof.
  unfold renderTasks. simpl. case_decide as Hts; simpl.
  - apply nil_length_inv in Hts. rewrite Hts. simpl.
    symmetry. apply filter_none. intros k _. apply not_elem_of_nil.
  - apply (sortedTasks_keys (tm w)).
Qed.

(** X1: [renderTasks] shows one card for each entry of the order list that
    has a task, in the order of the list; entries without a task are skipped
    and tasks missing from the order list get no card. *)
Theorem renderTasks_shows (w : World) :
  let cards := taskList_cards (dom (renderTasks w)) in
  cards = filter (λ k, k ∈ keys (tasks (tm w))) (taskOrder (tm w)) ∧
  cards `sublist_of` taskOrder (tm w) ∧
  ∀ k, k ∈ cards ↔ k ∈ taskOrder (tm w) ∧ k ∈ keys (tasks (tm w)).
Proof.
  cbv zeta. rewrite renderTasks_cards_filter. split_and!.
  - done.
  - apply sublist_filter.
  - intros k. rewrite list_elem_of_filter. tauto.
Qed.

Lemma loadTasks_refreshed forceReload F saved w :
  isLoading (tm w) = false →
  let w' := (loadTasks forceReload (SearchOk F) saved w).1 in
  tasks (tm w') = F ∧
  taskOrder (tm w') = reconcile (taskOrder (tm w)) F ∧
  taskList_cards (dom w') = reconcile (taskOrder (tm w)) F.
Proof.
  intros Hidle w'. subst w'. rewrite loadTasks_idle by done.
  unfold loadTasks_enter. rewrite Hidle.
  set (w1 := (loadTasks_searched (SearchOk F) saved _).1).
  assert (Hts : tasks (tm w1) = F) by done.
  assert (HO : taskOrder (tm w1) = reconcile (taskOrder (tm w)) F) by done.
  assert (Hc : taskList_cards (dom (renderTasks w1))
               = reconcile (taskOrder (tm w)) F).
  { rewrite renderTasks_cards_filter, Hts, HO.
    apply filter_all. intros k. by rewrite elem_of_reconcile. }
  split_and!.
  - unfold loadTasks_saved, renderTasks. simpl. by repeat case_decide.
  - unfold loadTasks_saved, renderTasks. simpl. by repeat case_decide.
  - rewrite <-Hc. unfold loadTasks_saved. simpl. by repeat case_decide.
Qed.

Lemma loadTasks_refreshed_store forceReload F saved w :
  isLoading (tm w) = false →
  let w' := (loadTasks forceReload (SearchOk F) saved w).1 in
  set_calls (browser w')
  = set_calls (browser w) ++ [reconcile (taskOrder (tm w)) F] ∧
  stored_taskOrder (browser w')
  = (if saved then Some (reconcile (taskOrder (tm w)) F)
     else stored_taskOrder (browser w)).
Proof.
  intros Hidle w'. subst w'. rewrite loadTasks_idle by done.
  unfold loadTasks_enter. rewrite Hidle.
  unfold loadTasks_saved, renderTasks. simpl.
  split; repeat case_decide; reflexivity.
Qed.



Lemma reconcile_same_keys (order : list key) (F : list Task) :
  (∀ k, k ∈ order ↔ k ∈ keys F) → reconcile order F = order.
Proof.
  intros Hk. rewrite reconcile_runs. unfold survivors, arrivals.
  rewrite filter_all by (intros k; apply Hk).
  rewrite filter_none; [by rewrite app_nil_r|].
  intros k Hin Hnot. apply Hnot. by apply Hk.
Qed.

(** X3: a refresh that fetches exactly the issues of the order list, in
    whatever order the tracker lists them, leaves the order list as it was
    and writes that same order to the storage. *)
Theorem refresh_keeps_order (forceReload : bool) (F : list Task)
  (saved : bool) (w : World) :
  isLoading (tm w) = false →
  (∀ k, k ∈ taskOrder (tm w) ↔ k ∈ keys F) →
  let w' := (loadTasks forceReload (SearchOk F) saved w).1 in
  taskOrder (tm w') = taskOrder (tm w) ∧
  taskList_cards (dom w') = taskOrder (tm w) ∧
  set_calls (browser w') = set_calls (browser w) ++ [taskOrder (tm w)].
Proof.
  intros Hidle Hk w'.
  destruct (loadTasks_refreshed forceReload F saved w Hidle) as (_ & HO & Hc).
  fold w' in HO, Hc. rewrite (reconcile_same_keys _ _ Hk) in HO, Hc.
  split_and!; [done|done|].
  subst w'. rewrite loadTasks_idle by done.
  unfold loadTasks_enter. rewrite Hidle.
  transitivity (set_calls (browser w)
                ++ [reconcile (taskOrder (tm w)) F]).
  - unfold loadTasks_saved, renderTasks. simpl. by repeat case_decide.
  - by rewrite (reconcile_same_keys _ _ Hk).
Qed.

Lemma refresh_keeps_order_witness :
  let w := holding ["D"; "B"] in
  let F := [issue "B"; issue "D"] in
  (isLoading (tm w) = false ∧ ∀ k, k ∈ taskOrder (tm w) ↔ k ∈ keys F) ∧
  taskOrder (tm (loadTasks false (SearchOk F) true w).1) = ["D"; "B"].
Proof.
  assert (Hk : ∀ k, k ∈ taskOrder (tm (holding ["D"; "B"]))
                    ↔ k ∈ keys [issue "B"; issue "D"]).
  { intros k. change (k ∈ ["D"; "B"] ↔ k ∈ ["B"; "D"]).
    rewrite !elem_of_cons, !elem_of_nil. tauto. }
  split; [split; [reflexivity|exact Hk]|].
  apply (refresh_keeps_order false [issue "B"; issue "D"] true
           (holding ["D"; "B"]) eq_refl Hk).
Defined.

Lemma run_dragging ds w :
  Forall dragging ds →
  taskList_cards (dom (run ds w)) ≡ₚ taskList_cards (dom w) ∧
  tm (run ds w) = tm w ∧ browser (run ds w) = browser w.
Proof.
  intros Hds. revert w. induction Hds as [|e ds He _ IH]; intros w; [done|].
  destruct e; try done. simpl.
  destruct (IH (handleDragOver from to w)) as (Hc & Ht & Hb).
  split_and!.
  - by rewrite Hc, handleDragOver_cards.
  - rewrite Ht. unfold handleDragOver. by destruct (_ !! _).
  - rewrite Hb. unfold handleDragOver. by destruct (_ !! _).
Qed.

(** X4: whatever the drag moves, the drop makes the order list a
    rearrangement of the cards the panel showed: no key is added, lost or
    repeated, the tasks are untouched, and that order is what is handed to
    the storage. *)
Theorem drop_rearranges (ds : list Event) (saved : bool) (w : World) :
  Forall dragging ds →
  let w' := step (run ds w) (Drop saved) in
  taskOrder (tm w') ≡ₚ taskList_cards (dom w) ∧
  tasks (tm w') = tasks (tm w) ∧
  set_calls (browser w') = set_calls (browser w) ++ [taskOrder (tm w')] ∧
  stored_taskOrder (browser w')
  = (if saved then Some (taskOrder (tm w'))
     else stored_taskOrder (browser w)).
Proof.
  intros Hds w'. destruct (run_dragging ds w Hds) as (Hc & Ht & Hb).
  subst w'. simpl. rewrite Ht, Hb. split_and!; try done.
Qed.

Lemma drop_rearranges_witness :
  let w := (loadTasks false (SearchOk [issue "B"; issue "D"; issue "E"])
              true (initial None blank)).1 in
  let ds := [DragOver 2 0; DragOver 1 2] in
  Forall dragging ds ∧
  taskOrder (tm (step (run ds w) (Drop true))) ≡ₚ taskList_cards (dom w).
Proof.
  assert (Hds : Forall dragging [DragOver 2 0; DragOver 1 2]).
  { repeat constructor. }
  split; [exact Hds|].
  apply (drop_rearranges [DragOver 2 0; DragOver 1 2] true _ Hds).
Defined.

(** ** What the panel shows while and after it refreshes *)

Lemma advance_loading_shown caller wp :
  loading_shown wp.1 → loading_shown (advance caller wp).
Proof.
  destruct wp as [w [c|a]]; simpl; [|done].
  unfold settle. destruct caller, (promise_of c); done.
Qed.

Lemma step_loading_shown w e : loading_shown w → loading_shown (step w e).
Proof.
  intros Hw. destruct e; simpl.
  - apply advance_loading_shown. unfold loadTasks_enter.
    destruct (isLoading (tm w)) eqn:Hl; [done|]. by intros _.
  - case_decide; [|done]. apply advance_loading_shown. unfold loadTasks_enter.
    destruct (isLoading (tm w)) eqn:Hl; [done|]. by intros _.
  - case_decide; [|done]. apply advance_loading_shown. unfold loadTasks_enter.
    destruct (isLoading (tm w)) eqn:Hl; [done|]. by intros _.
  - unfold resume. destruct (_ !! _) as [[a' caller]|]; [|done].
    case_decide; [|done]. apply advance_loading_shown.
    destruct r; simpl; [done|]. by intros [=].
  - unfold resume. destruct (_ !! _) as [[a' caller]|]; [|done].
    case_decide; [|done]. apply advance_loading_shown. by intros [=].
  - unfold handleDragOver. by destruct (_ !! _).
  - done.
  - unfold setupAutoRefresh, loading_shown in *.
    destruct (refreshInterval (tm w)), result; simpl; try done;
      case_decide; done.
  - unfold loadTaskOrder, local_get. by destruct succeeds.
Qed.

(** X5: in every state the panel can reach, while the busy flag is set the
    loading indicator is shown and the task list is hidden, whatever else
    happens before the fetch settles. *)
Theorem busy_hides_list (stored : option (list key)) (d : Dom)
  (es : list Event) :
  let w := run es (initial stored d) in
  if isLoading (tm w)
  then loadingIndicator_hidden (dom w) = false ∧ taskList_hidden (dom w) = true
  else suspended (browser w) = [].
Proof.
  cbv zeta.
  assert (Hshown : ∀ w, loading_shown w → loading_shown (run es w)).
  { induction es as [|e es IH]; intros w Hw; [done|].
    apply IH. by apply step_loading_shown. }
  assert (Hflight : single_flight (run es (initial stored d))).
  { apply run_single_flight, single_flight_initial. }
  specialize (Hshown (initial stored d)).
  destruct (isLoading (tm (run es (initial stored d)))) eqn:Hl.
  - apply Hshown; [by intros [=]|done].
  - by apply single_flight_idle.
Qed.

(** X6: a refresh whose search fails, with whatever message, calls
    [searchTasks] once, shows the message, clears the busy flag and changes
    neither the tasks, the order list, the cards nor the storage, to which
    it does not write. *)
Theorem failed_refresh_keeps_state (forceReload : bool) (message : string)
  (saved : bool) (w : World) :
  isLoading (tm w) = false →
  let w' := (loadTasks forceReload (SearchErr message) saved w).1 in
  isLoading (tm w') = false ∧
  errorMessage_text (dom w') = message ∧
  search_calls (browser w') = search_calls (browser w) ++ [forceReload] ∧
  tasks (tm w') = tasks (tm w) ∧
  taskOrder (tm w') = taskOrder (tm w) ∧
  taskList_cards (dom w') = taskList_cards (dom w) ∧
  set_calls (browser w') = set_calls (browser w) ∧
  stored_taskOrder (browser w') = stored_taskOrder (browser w).
Proof.
  intros Hidle w'. subst w'. rewrite loadTasks_idle by done.
  unfold loadTasks_enter. rewrite Hidle. split_and!; reflexivity.
Qed.

Lemma failed_refresh_keeps_state_witness :
  let w := holding ["D"; "B"] in
  isLoading (tm w) = false ∧
  taskOrder (tm (loadTasks true (SearchErr "Failed to fetch") true w).1)
  = ["D"; "B"].
Proof.
  split; [reflexivity|].
  apply (failed_refresh_keeps_state true "Failed to fetch" true
           (holding ["D"; "B"]) eq_refl).
Defined.

(** X7: after a refresh that succeeds, the loading indicator and the error
    are hidden, the empty state is shown exactly when no issue was fetched,
    and the task list is un-hidden in both cases: the [finally] block shows
    it again after [showEmptyState] hid it. *)
Theorem refresh_settles_panel (forceReload : bool) (F : list Task)
  (saved : bool) (w : World) :
  isLoading (tm w) = false →
  let w' := (loadTasks forceReload (SearchOk F) saved w).1 in
  isLoading (tm w') = false ∧
  loadingIndicator_hidden (dom w') = true ∧
  errorMessage_hidden (dom w') = true ∧
  taskList_hidden (dom w') = false ∧
  emptyState_hidden (dom w') = bool_decide (F ≠ []).
Proof.
  intros Hidle w'. subst w'. rewrite loadTasks_idle by done.
  unfold loadTasks_enter. rewrite Hidle.
  unfold loadTasks_saved, renderTasks. simpl.
  destruct F as [|t F]; simpl; split_and!; reflexivity.
Qed.

Lemma refresh_settles_panel_witness :
  let w := holding ["D"; "B"] in
  let w' := (loadTasks false (SearchOk []) true w).1 in
  isLoading (tm w) = false ∧
  taskList_hidden (dom w') = false ∧ emptyState_hidden (dom w') = false.
Proof.
  split; [reflexivity|].
  pose proof (refresh_settles_panel false [] true (holding ["D"; "B"])
                eq_refl) as H.
  cbv zeta in H. destruct H as (_ & _ & _ & H1 & H2).
  split; [exact H1|exact H2].
Defined.

(** ** The priority class and the two filters *)

Lemma prefix_app_l (x y s : string) :
  String.prefix (x +:+ y) s = true → String.prefix x s = true.
Proof.
  revert s. induction x as [|a x IH]; intros s; [by destruct s|].
  destruct s as [|b s]; simpl; [done|].
  destruct (Ascii.ascii_dec a b); [apply IH|done].
Qed.

Lemma includes_app_l (s x y : string) :
  includes s (x +:+ y) = true → includes s x = true.
Proof.
  induction s as [|c s IH].
  - change (String.prefix (x +:+ y) "" || false = true
            → String.prefix x "" || false = true).
    rewrite !orb_true_iff. intros [Hp|?]; [|done].
    left. by apply prefix_app_l with y.
  - change (String.prefix (x +:+ y) (String c s) || includes s (x +:+ y) = true
            → String.prefix x (String c s) || includes s x = true).
    rewrite !orb_true_iff.
    intros [Hp|Hs]; [left; by apply prefix_app_l with y|right; by apply IH].
Qed.

Lemma includes_empty (s : string) : includes s "" = true.
Proof. by destruct s. Qed.

(** X8: a priority whose name contains [lowest] is never given the class
    [priority-lowest]: the test for [low] comes first and takes it, unless
    one of the tests before it does. *)
Theorem getPriorityClass_lowest `{Host} (priority : string) :
  includes (toLowerCase priority) "lowest" = true →
  getPriorityClass priority ≠ "priority-lowest" ∧
  getPriorityClass priority
  ∈ ["priority-highest"; "priority-high"; "priority-low"].
Proof.
  intros Hlowest.
  assert (Hlow : includes (toLowerCase priority) "low" = true).
  { by apply (includes_app_l _ "low" "est"). }
  unfold getPriorityClass. rewrite Hlow. simpl.
  repeat match goal with
         | |- context [if ?b then _ else _] => destruct b
         end;
    (split; [discriminate|set_solver]).
Qed.

Lemma getPriorityClass_lowest_witness :
  includes (toLowerCase "Lowest") "lowest" = true ∧
  getPriorityClass "Lowest" ≠ "priority-lowest".
Proof.
  split; [reflexivity|].
  apply (getPriorityClass_lowest "Lowest"). reflexivity.
Defined.

(** X9: the class [priority-lowest] is given only to a name that contains
    [trivial] and none of [highest], [blocker], [high], [critical], [low],
    [minor]; in particular never to one that contains [lowest]. *)
Theorem getPriorityClass_trivial `{Host} (priority : string) :
  getPriorityClass priority = "priority-lowest" →
  let p := toLowerCase priority in
  includes p "trivial" = true ∧ includes p "lowest" = false ∧
  Forall (λ word, includes p word = false)
         ["highest"; "blocker"; "high"; "critical"; "low"; "minor"].
Proof.
  intros Hclass. cbv zeta. unfold getPriorityClass in Hclass.
  set (p := toLowerCase priority) in *. cbv zeta in Hclass.
  destruct (includes p "highest") eqn:H1; [done|].
  destruct (includes p "blocker") eqn:H2; [done|].
  destruct (includes p "high") eqn:H3; [done|].
  destruct (includes p "critical") eqn:H4; [done|].
  destruct (includes p "low") eqn:H5; [done|].
  destruct (includes p "minor") eqn:H6; [done|].
  assert (H7 : includes p "lowest" = false).
  { destruct (includes p "lowest") eqn:H7; [|done].
    by rewrite (includes_app_l p "low" "est" H7) in H5. }
  rewrite H7 in Hclass. simpl in Hclass.
  destruct (includes p "trivial"); [|done].
  split_and!; [done|done|]. by repeat constructor.
Qed.

Lemma getPriorityClass_trivial_witness :
  getPriorityClass "Trivial" = "priority-lowest" ∧
  includes (toLowerCase "Trivial") "trivial" = true.
Proof.
  split; [reflexivity|].
  apply (getPriorityClass_trivial "Trivial"). reflexivity.
Defined.

(** X10: the two filters do not combine: each one sets the display of every
    card anew, so the later one decides alone, and neither changes the
    cards, their keys or their order. *)
Theorem filters_override `{Host} (searchTerm status : string)
  (cards : list Card) :
  filterByStatus status (filterTasks searchTerm cards)
  = filterByStatus status cards ∧
  filterTasks searchTerm (filterByStatus status cards)
  = filterTasks searchTerm cards ∧
  card_key <$> filterTasks searchTerm cards = card_key <$> cards ∧
  card_key <$> filterByStatus status cards = card_key <$> cards.
Proof.
  unfold filterByStatus, filterTasks. split_and!.
  - rewrite <-list_fmap_compose. apply list_fmap_ext.
    intros i card _. simpl.
    repeat match goal with
           | |- context [if ?b then _ else _] => destruct b
           end; reflexivity.
  - rewrite <-list_fmap_compose. apply list_fmap_ext.
    intros i card _. simpl.
    repeat match goal with
           | |- context [if ?b then _ else _] => destruct b
           end; reflexivity.
  - rewrite <-list_fmap_compose. by apply list_fmap_ext.
  - rewrite <-list_fmap_compose. apply list_fmap_ext.
    intros i card _. simpl.
    repeat match goal with
           | |- context [if ?b then _ else _] => destruct b
           end; reflexivity.
Qed.

(** X11: an empty search term and an empty status show every card, whatever
    was hidden before. *)
Theorem filters_show_all `{Host} (cards : list Card) :
  Forall (λ card, card_shown card = true) (filterTasks "" cards) ∧
  Forall (λ card, card_shown card = true) (filterByStatus "" cards).
Proof.
  split.
  - unfold filterTasks. rewrite toLowerCase_empty.
    apply Forall_fmap, Forall_true. intros card. simpl.
    by rewrite includes_empty.
  - unfold filterByStatus. apply Forall_fmap, Forall_true. by intros card.
Qed.

(** X12: a status value other than the empty one, [todo], [inprogress] and
    [review] hides every card, whatever its status text. *)
Theorem filterByStatus_unknown `{Host} (status : string) (cards : list Card) :
  status ∉ [""; "todo"; "inprogress"; "review"] →
  Forall (λ card, card_shown card = false) (filterByStatus status cards).
Proof.
  intros Hs. unfold filterByStatus.
  apply Forall_fmap, Forall_true. intros card. simpl.
  assert (Hne : status ≠ "" ∧ status ≠ "todo" ∧ status ≠ "inprogress"
                ∧ status ≠ "review").
  { split_and!; intros ->; apply Hs; set_solver. }
  destruct Hne as (H0 & H1 & H2 & H3).
  unfold truthy. rewrite bool_decide_true by done. simpl.
  rewrite !bool_decide_false by done. reflexivity.
Qed.

Lemma filterByStatus_unknown_witness :
  let cards := [mkCard "B" "Fix login" "Done" true;
                mkCard "D" "Write docs" "To Do" true] in
  ("done" ∉ [""; "todo"; "inprogress"; "review"]) ∧
  Forall (λ card, card_shown card = false) (filterByStatus "done" cards).
Proof.
  assert (Hs : "done" ∉ [""; "todo"; "inprogress"; "review"]) by decided.
  split; [exact Hs|].
  apply (filterByStatus_unknown "done" _ Hs).
Defined.

(** ** The tracker client *)

Lemma transformTasks_keys s issues :
  keys (JiraAPI.transformTasks s issues) = JiraAPI.issue_key <$> issues.
Proof.
  unfold keys, JiraAPI.transformTasks. rewrite <-list_fmap_compose.
  by apply list_fmap_ext.
Qed.

(** X13: [transformTasks] keeps the issues in the order of the response,
    one task for each under its key, so that the first refresh of a panel
    with an empty order list shows the issues as the tracker lists them,
    hands that order to the storage, and the storage holds it once the write
    succeeds. *)
Theorem first_refresh_in_tracker_order (s : JiraAPI.Settings)
  (issues : list JiraAPI.Issue) (forceReload saved : bool) (w : World) :
  isLoading (tm w) = false → taskOrder (tm w) = [] →
  let F := JiraAPI.transformTasks s issues in
  let w' := (loadTasks forceReload (SearchOk F) saved w).1 in
  keys F = JiraAPI.issue_key <$> issues ∧
  taskOrder (tm w') = JiraAPI.issue_key <$> issues ∧
  taskList_cards (dom w') = JiraAPI.issue_key <$> issues ∧
  set_calls (browser w')
  = set_calls (browser w) ++ [JiraAPI.issue_key <$> issues] ∧
  stored_taskOrder (browser w')
  = (if saved then Some (JiraAPI.issue_key <$> issues)
     else stored_taskOrder (browser w)).
Proof.
  intros Hidle Hempty F w'.
  destruct (loadTasks_refreshed forceReload F saved w Hidle) as (_ & HO & Hc).
  destruct (loadTasks_refreshed_store forceReload F saved w Hidle)
    as (Hset & Hst).
  fold w' in HO, Hc, Hset, Hst. rewrite Hempty in HO, Hc, Hset, Hst.
  change (reconcile [] F) with (keys F) in HO, Hc, Hset, Hst.
  subst F. rewrite transformTasks_keys in HO, Hc, Hset, Hst |- *. done.
Qed.

Lemma first_refresh_in_tracker_order_witness :
  let s := JiraAPI.with_defaults never_saved in
  let issues := [JiraAPI.mkIssue "10002" "PRJ-2" "Second" "Open"
                   JiraAPI.Absent JiraAPI.Null (JiraAPI.Text "Bug");
                 JiraAPI.mkIssue "10001" "PRJ-1" "First" "Open"
                   (JiraAPI.Text "To Do") (JiraAPI.Text "") JiraAPI.Absent] in
  let w := initial None blank in
  let w' := (loadTasks false
               (SearchOk (JiraAPI.transformTasks s issues)) true w).1 in
  (isLoading (tm w) = false ∧ taskOrder (tm w) = []) ∧
  taskOrder (tm w') = ["PRJ-2"; "PRJ-1"] ∧
  stored_taskOrder (browser w') = Some ["PRJ-2"; "PRJ-1"].
Proof.
  intros s issues w w'. split; [split; reflexivity|].
  pose proof (first_refresh_in_tracker_order s issues false true w
                eq_refl eq_refl) as H.
  cbv zeta in H. destruct H as (_ & H1 & _ & _ & H2).
  split; [exact H1|exact H2].
Defined.

Lemma or_else_truthy value fallback :
  fallback ≠ "" → JiraAPI.or_else value fallback ≠ "".
Proof.
  intros Hf. destruct value as [| |s]; simpl; try done.
  unfold truthy. case_bool_decide; done.
Qed.

(** X14: no task made by [transformTasks] has a blank status category,
    priority name or type name: a missing, null or empty one is replaced by
    [To Do], [Medium], [Task]. *)
Theorem transformTasks_fills_blanks (s : JiraAPI.Settings)
  (issues : list JiraAPI.Issue) :
  Forall (λ task, task_status_category task ≠ "" ∧
                  task_priority_name task ≠ "" ∧
                  task_type_name task ≠ "")
         (JiraAPI.transformTasks s issues).
Proof.
  unfold JiraAPI.transformTasks. apply Forall_fmap, Forall_true.
  intros issue. simpl. split_and!; by apply or_else_truthy.
Qed.

Lemma stripSlash_slash (u : string) : stripSlash (u +:+ "/") = u.
Proof.
  induction u as [|c u IH]; [done|].
  change (String c u +:+ "/") with (String c (u +:+ "/")).
  cbn [stripSlash]. rewrite IH.
  rewrite (bool_decide_false (u +:+ "/" = "")) by by destruct u.
  by rewrite andb_false_r.
Qed.

(** X15: [transformTasks] drops one slash at the end of the configured
    address before it builds the link of a task: with the address [u/] every
    link is [u/browse/KEY]. *)
Theorem transformTasks_links (u jiraType username excludedStatuses : string)
  (includeAssigned includeReviewer : bool) (maxTasks : option Z)
  (issues : list JiraAPI.Issue) :
  let s := JiraAPI.mkSettings jiraType (u +:+ "/") username includeAssigned
             includeReviewer excludedStatuses maxTasks in
  task_url <$> JiraAPI.transformTasks s issues
  = (λ issue, u +:+ "/browse/" +:+ JiraAPI.issue_key issue) <$> issues.
Proof.
  cbv zeta. unfold JiraAPI.transformTasks. simpl.
  rewrite stripSlash_slash, <-list_fmap_compose. by apply list_fmap_ext.
Qed.

Lemma append_cons (x : Ascii.ascii) (a b : string) :
  String x a +:+ b = String x (a +:+ b).
Proof. reflexivity. Qed.

Lemma append_assoc (a b c : string) : (a +:+ b) +:+ c = a +:+ b +:+ c.
Proof.
  induction a as [|x a IH]; [done|]. by rewrite !append_cons, IH.
Qed.

Lemma replaceAll_app c replacement (a b : string) :
  replaceAll c replacement (a +:+ b)
  = replaceAll c replacement a +:+ replaceAll c replacement b.
Proof.
  induction a as [|x a IH]; [done|].
  rewrite append_cons. cbn [replaceAll]. by rewrite IH, append_assoc.
Qed.

Lemma escaped_cons (c : Ascii.ascii) (s : string) :
  JiraAPI.escaped (String c s)
  = (if bool_decide (c = backslash_char) then backslash +:+ backslash
     else if bool_decide (c = dquote_char) then backslash +:+ dquote
     else String c "") +:+ JiraAPI.escaped s.
Proof.
  unfold JiraAPI.escaped. cbn [replaceAll].
  rewrite replaceAll_app. f_equal.
  case_bool_decide as Hb.
  - subst c. reflexivity.
  - change (String c "" +:+ ?x) with (String c x).
    cbn [replaceAll]. case_bool_decide; reflexivity.
Qed.

(** X16: the escaping of a status name can be undone and cannot end the
    string literal it is put in: read with the backslash as escape, the
    escaped text holds no double quote on its own, does not end after a
    pending backslash, and stands for the name it was made from. *)
Theorem escaped_is_safe (status : string) :
  literal_body false (JiraAPI.escaped status) = true ∧
  unescaped false (JiraAPI.escaped status) = status.
Proof.
  induction status as [|c s [IH1 IH2]]; [done|].
  rewrite escaped_cons. case_bool_decide as Hb; [|case_bool_decide as Hq].
  - subst c.
    change ((backslash +:+ backslash) +:+ ?x)
      with (String backslash_char (String backslash_char x)).
    split; [exact IH1|]. cbn [unescaped]. simpl. by rewrite IH2.
  - subst c.
    change ((backslash +:+ dquote) +:+ ?x)
      with (String backslash_char (String dquote_char x)).
    split; [exact IH1|]. cbn [unescaped]. simpl. by rewrite IH2.
  - change (String c "" +:+ ?x) with (String c x).
    cbn [literal_body unescaped]. rewrite !bool_decide_false by done.
    split; [exact IH1|]. by rewrite IH2.
Qed.

(** X17: with neither the assigned nor the reviewer clause asked for, the
    query is the one for the assigned issues alone; the list of clauses is
    never empty. *)
Theorem jql_falls_back_to_assigned `{Host}
  (jiraType jiraUrl username excludedStatuses : string)
  (maxTasks : option Z) (s : JiraAPI.Settings) :
  JiraAPI.jql (JiraAPI.mkSettings jiraType jiraUrl username false false
                 excludedStatuses maxTasks)
  = JiraAPI.jql (JiraAPI.mkSettings jiraType jiraUrl username true false
                   excludedStatuses maxTasks) ∧
  JiraAPI.jqlParts s ≠ [].
Proof.
  split; [reflexivity|].
  unfold JiraAPI.jqlParts.
  destruct (JiraAPI.includeAssigned s), (JiraAPI.includeReviewer s);
    simpl; try case_bool_decide; simpl; done.
Qed.

(** The outcome of the search request as the response handling takes it. *)
Lemma searchTasks_settled `{Host} forceReload settings read read' identity
  fetched s :
  JiraAPI.loadSettings forceReload settings read = Some s →
  JiraAPI.searchTasks forceReload settings read read' identity fetched
  = (Some s,
     searchTasks (JiraAPI.jiraUrl s)
       (sum_map id (JiraAPI.transformed s) fetched)).
Proof.
  intros Hs. unfold JiraAPI.searchTasks, searchTasks. rewrite Hs.
  destruct (truthy (JiraAPI.jiraUrl s)) eqn:Hurl; simpl; [|done].
  assert (Hheld : JiraAPI.loadSettings false (Some s) read' = Some s).
  { unfold JiraAPI.loadSettings. simpl. by rewrite Hurl. }
  unfold JiraAPI.getCurrentUserKey, JiraAPI.getCurrentUser.
  rewrite Hheld, Hurl. simpl.
  destruct identity as [message|response]; simpl.
  - by destruct fetched.
  - destruct (JiraAPI.identity_ok response); simpl.
    + destruct (JiraAPI.identity_json response) as [message|[user|]];
        by destruct fetched.
    + by destruct fetched.
Qed.

(** X18: the request for the current user has no part in the outcome of
    [searchTasks]: whether it fails, is refused or answers, the search
    settles as the handling of the search response alone decides, with the
    settings that [loadSettings] gave. *)
Theorem searchTasks_ignores_identity `{Host} (forceReload : bool)
  (settings : option JiraAPI.Settings) (read read' : option Sync)
  (identity : string + JiraAPI.IdentityResponse)
  (fetched : string + JiraAPI.SearchResponse) (s : JiraAPI.Settings) :
  JiraAPI.loadSettings forceReload settings read = Some s →
  JiraAPI.searchTasks forceReload settings read read' identity fetched
  = (Some s,
     searchTasks (JiraAPI.jiraUrl s)
       (sum_map id (JiraAPI.transformed s) fetched)) ∧
  ∀ read'' identity',
    JiraAPI.searchTasks forceReload settings read read'' identity' fetched
    = JiraAPI.searchTasks forceReload settings read read' identity fetched.
Proof.
  intros Hs. split; [by apply searchTasks_settled|].
  intros read'' identity'. by rewrite !(searchTasks_settled _ _ _ _ _ _ s).
Qed.

Lemma searchTasks_ignores_identity_witness :
  let store := mkSync None (Some "https://jira.example.org/") None None None
                 None None None None None in
  let s := JiraAPI.with_defaults store in
  let fetched := inr (JiraAPI.mkSearchResponse 200 "OK" None None
    (inr [JiraAPI.mkIssue "10001" "PRJ-1" "First" "Open" JiraAPI.Absent
            JiraAPI.Absent JiraAPI.Absent])) in
  JiraAPI.loadSettings true None (Some store) = Some s ∧
  JiraAPI.searchTasks true None (Some store) None
    (inl "Failed to fetch") fetched
  = (Some s,
     SearchOk [mkTask "10001" "PRJ-1" "First" "Open" "To Do" "Medium" "Task"
                 "https://jira.example.org/browse/PRJ-1"]).
Proof.
  intros store s fetched. split; [reflexivity|].
  pose proof (searchTasks_ignores_identity true None (Some store) None
                (inl "Failed to fetch") fetched s eq_refl) as [H _].
  rewrite H. vm_compute. reflexivity.
Defined.

(** X19: once settings with an address are held, a call of [searchTasks]
    that does not force a reload never looks at the storage: it settles as
    with the held settings whatever the storage holds by then, while a forced
    call takes what the storage holds. *)
Theorem searchTasks_uses_cached_settings `{Host}
  (s : JiraAPI.Settings) (read read' : option Sync) (store : Sync)
  (identity : string + JiraAPI.IdentityResponse)
  (fetched : string + JiraAPI.SearchResponse) :
  JiraAPI.jiraUrl s ≠ "" →
  JiraAPI.searchTasks false (Some s) read read' identity fetched
  = (Some s,
     searchTasks (JiraAPI.jiraUrl s)
       (sum_map id (JiraAPI.transformed s) fetched)) ∧
  JiraAPI.searchTasks true (Some s) (Some store) read' identity fetched
  = (Some (JiraAPI.with_defaults store),
     searchTasks (JiraAPI.jiraUrl (JiraAPI.with_defaults store))
       (sum_map id (JiraAPI.transformed (JiraAPI.with_defaults store))
          fetched)).
Proof.
  intros Hurl. split.
  - apply searchTasks_settled. unfold JiraAPI.loadSettings. simpl.
    unfold truthy. by rewrite bool_decide_true.
  - apply searchTasks_settled. unfold JiraAPI.loadSettings. simpl.
    by rewrite andb_false_r.
Qed.

Lemma searchTasks_uses_cached_settings_witness :
  let s := JiraAPI.mkSettings "server" "https://old.example.org" "" true true
             "" (Some 50%Z) in
  let store := mkSync None (Some "https://new.example.org") None None None
                 None None None None None in
  let fetched := inr (JiraAPI.mkSearchResponse 200 "OK" None None
    (inr [JiraAPI.mkIssue "10001" "PRJ-1" "First" "Open" JiraAPI.Absent
            JiraAPI.Absent JiraAPI.Absent])) in
  JiraAPI.jiraUrl s ≠ "" ∧
  (JiraAPI.searchTasks false (Some s) (Some store) (Some store)
     (inl "Failed to fetch") fetched).2
  = SearchOk [mkTask "10001" "PRJ-1" "First" "Open" "To Do" "Medium" "Task"
                "https://old.example.org/browse/PRJ-1"].
Proof.
  intros s store fetched. split; [discriminate|].
  pose proof (searchTasks_uses_cached_settings s (Some store) (Some store)
                store (inl "Failed to fetch") fetched
                ltac:(discriminate)) as [H _].
  rewrite H. vm_compute. reflexivity.
Defined.



Example testConnection_null_body :
  JiraAPI.success
    (JiraAPI.testConnection
       (Some (JiraAPI.mkSettings "cloud" "https://jira.example.org" "" true
                true "" (Some 50%Z)))
       None None
       (inr (JiraAPI.mkIdentityResponse true "OK" (inr None)))).2
  = false.
Proof. reflexivity. Qed.

(** X21: a response whose status is outside 200 to 299 never yields tasks:
    [searchTasks] rejects with a message that is not blank, and for 401, 403
    and 404 the message does not depend on the body of the response. *)
Theorem searchTasks_response_not_ok (r : Response) :
  ok r = false →
  (∃ message, searchTasks_response r = SearchErr message ∧ message ≠ "") ∧
  (status r ∈ [401; 403; 404] →
   ∀ body errors data,
     searchTasks_response
       (mkResponse (status r) (statusText r) body errors data)
     = searchTasks_response r).
Proof.
  intros Hok. unfold searchTasks_response. split.
  - rewrite Hok. simpl. repeat case_bool_decide; eexists; split; try done.
  - intros Hs body errors data.
    assert (Hok' : ok (mkResponse (status r) (statusText r) body errors data)
                   = false) by done.
    rewrite Hok, Hok'. simpl.
    repeat case_bool_decide; try done.
    rewrite !elem_of_cons, elem_of_nil in Hs. tauto.
Qed.

Lemma searchTasks_response_not_ok_witness :
  let r := mkResponse 500 "Internal Server Error" (Some "oops") None (inl "")
  in
  ok r = false ∧
  ∃ message, searchTasks_response r = SearchErr message ∧ message ≠ "".
Proof.
  split; [reflexivity|].
  apply (searchTasks_response_not_ok
           (mkResponse 500 "Internal Server Error" (Some "oops") None
              (inl "")) eq_refl).
Defined.

(** ** The options page and the background script *)

Lemma prefix_append (a b : string) : String.prefix a (a +:+ b) = true.
Proof.
  induction a as [|x a IH]; [by destruct b|].
  rewrite append_cons. simpl. by destruct (Ascii.ascii_dec x x).
Qed.

(** X22: [saveSettings] either leaves the storage as it was, sends nothing
    and shows an error, or stores the form and sends [settings-updated]; and
    then the stored address is not blank, starts with [http://] or
    [https://] and is one [new URL] accepts. *)
Theorem saveSettings_outcome `{Host} (parses : string → bool)
  (form : Options.Form) (lastError : option string) (store : Sync) :
  let outcome := Options.saveSettings parses form lastError store in
  (Options.stored outcome = store ∧ Options.sent outcome = [] ∧
   Options.status_type outcome = "error") ∨
  (Options.status_type outcome = "success" ∧
   Options.sent outcome = ["settings-updated"] ∧ lastError = None ∧
   ∃ url, sync_jiraUrl (Options.stored outcome) = Some url ∧ url ≠ "" ∧
          parses url = true ∧
          (String.prefix "http://" url = true
           ∨ String.prefix "https://" url = true)).
Proof.
  cbv zeta. unfold Options.saveSettings.
  set (url := trim (Options.jiraUrl form)).
  unfold truthy. case_bool_decide as Hurl; simpl; [|by left].
  set (url' := if negb (String.prefix "http://" url)
                  && negb (String.prefix "https://" url)
               then "https://" +:+ url else url).
  destruct (parses url') eqn:Hparses; simpl; [|by left].
  destruct lastError as [message|]; simpl; [by left|].
  right. split_and!; try done. exists url'. split_and!; try done.
  - subst url'. destruct (_ && _); [done|done].
  - subst url'.
    destruct (String.prefix "http://" url) eqn:H1; simpl; [by left|].
    destruct (String.prefix "https://" url) eqn:H2; simpl; [by right|].
    right. apply prefix_append.
Qed.

(** X23: what [saveSettings] stores is what the options page shows when it
    is opened again and what the tracker client loads: the form as it was
    submitted, with the address and the user name as they were stored. *)
Theorem saved_settings_are_loaded `{Host} (parses : string → bool)
  (form : Options.Form) (store : Sync) :
  let outcome := Options.saveSettings parses form None store in
  Options.status_type outcome = "success" →
  let loaded := Options.loadSettings (Options.stored outcome) in
  let client := JiraAPI.with_defaults (Options.stored outcome) in
  loaded = Options.mkForm (Options.jiraType form) (Options.jiraUrl loaded)
             (trim (Options.username form)) (Options.includeAssigned form)
             (Options.includeReviewer form) (Options.excludedStatuses form)
             (Options.maxTasks form) (Options.showPriority form)
             (Options.showStatus form) (Options.autoRefresh form) ∧
  client = JiraAPI.mkSettings (Options.jiraType loaded)
             (Options.jiraUrl loaded) (Options.username loaded)
             (Options.includeAssigned loaded) (Options.includeReviewer loaded)
             (Options.excludedStatuses loaded) (Options.maxTasks loaded) ∧
  JiraAPI.jiraUrl client ≠ "" ∧
  autoRefresh_read (Some (Options.stored outcome))
  = Items (Some (Options.autoRefresh form)).
Proof.
  cbv zeta. unfold Options.saveSettings.
  set (url := trim (Options.jiraUrl form)).
  unfold truthy. case_bool_decide as Hurl; simpl; [|done].
  set (url' := if negb (String.prefix "http://" url)
                  && negb (String.prefix "https://" url)
               then "https://" +:+ url else url).
  destruct (parses url') eqn:Hparses; simpl; [|done].
  intros _. split_and!; try reflexivity.
  subst url'. by destruct (_ && _).
Qed.

Lemma saved_settings_are_loaded_witness :
  let form := Options.mkForm "server" " jira.example.org " " me " true false
                "Done" (Some 20%Z) true true false in
  let outcome := Options.saveSettings (λ _, true) form None never_saved in
  Options.status_type outcome = "success" ∧
  JiraAPI.jiraUrl (JiraAPI.with_defaults (Options.stored outcome)) ≠ "".
Proof.
  intros form outcome. split; [reflexivity|].
  pose proof (saved_settings_are_loaded (λ _, true) form never_saved eq_refl)
    as H.
  cbv zeta in H. destruct H as (_ & _ & H & _). exact H.
Defined.

Example saveSettings_adds_scheme :
  sync_jiraUrl (Options.stored
    (Options.saveSettings (λ _, true)
       (Options.mkForm "server" " jira.example.org " " me " true false
          "Done" (Some 20%Z) true true false) None never_saved))
  = Some "https://jira.example.org".
Proof. vm_compute. reflexivity. Qed.

Lemma saveSettings_sent `{Host} parses form lastError store :
  let outcome := Options.saveSettings parses form lastError store in
  Options.sent outcome = [] ∧ Options.stored outcome = store
  ∨ Options.sent outcome = ["settings-updated"]
    ∧ Options.status_type outcome = "success".
Proof.
  cbv zeta. unfold Options.saveSettings.
  destruct (negb (truthy _)); [by left|].
  destruct (negb (parses _)); [by left|].
  destruct lastError; [by left|by right].
Qed.

(** X24: a save that fails leaves the panel alone; one that succeeds
    reaches the panel as a reload message through the background script: an
    idle panel then starts one search that forces the settings to be read
    again, while a busy panel only acknowledges, so that nothing is fetched
    with the new settings and no later fetch is queued. *)
Theorem save_reloads_panel `{Host} (parses : string → bool)
  (form : Options.Form) (lastError : option string) (store : Sync)
  (w : World) :
  let outcome := Options.saveSettings parses form lastError store in
  let w' := broadcast (Options.sent outcome) w in
  match Options.sent outcome with
  | [] => w' = w ∧ Options.stored outcome = store
  | _ =>
      replies (browser w')
      = replies (browser w) ++ (if isLoading (tm w) then [Reloaded] else []) ∧
      search_calls (browser w')
      = search_calls (browser w) ++ (if isLoading (tm w) then [] else [true]) ∧
      suspended (browser w')
      = suspended (browser w)
        ++ (if isLoading (tm w) then [] else [(AwaitSearch, ReloadRequest)]) ∧
      isLoading (tm w') = true ∧
      tasks (tm w') = tasks (tm w) ∧ taskOrder (tm w') = taskOrder (tm w)
  end.
Proof.
  cbv zeta.
  destruct (saveSettings_sent parses form lastError store) as [[-> ->]|[-> _]].
  - done.
  - unfold broadcast. simpl.
    unfold call_loadTasks, loadTasks_enter.
    destruct (isLoading (tm w)) eqn:Hl; simpl.
    + rewrite !app_nil_r. by split_and!.
    + rewrite app_nil_r. by split_and!.
Qed.

Lemma step_keeps_timer w e :
  keeps_timer e →
  intervals (browser (step w e)) = intervals (browser w) ∧
  refreshInterval (tm (step w e)) = refreshInterval (tm w).
Proof.
  intros He. destruct e; try done; simpl.
  - unfold call_loadTasks, loadTasks_enter. by destruct (isLoading (tm w)).
  - case_decide; [|done].
    unfold call_loadTasks, loadTasks_enter. by destruct (isLoading (tm w)).
  - case_decide; [|done].
    unfold call_loadTasks, loadTasks_enter. by destruct (isLoading (tm w)).
  - unfold resume. destruct (_ !! _) as [[a' caller]|]; [|done].
    case_decide; [|done]. destruct r; simpl; [done|]. by destruct caller.
  - unfold resume. destruct (_ !! _) as [[a' caller]|]; [|done].
    case_decide; [|done]. unfold loadTasks_resume, loadTasks_saved, renderTasks.
    simpl. repeat case_decide; by destruct caller.
  - unfold handleDragOver. by destruct (_ !! _).
  - unfold loadTaskOrder, local_get. by destruct succeeds.
Qed.

Lemma run_keeps_timer es w :
  Forall keeps_timer es →
  intervals (browser (run es w)) = intervals (browser w) ∧
  refreshInterval (tm (run es w)) = refreshInterval (tm w).
Proof.
  intros Hes. revert w. induction Hes as [|e es He _ IH]; intros w; [done|].
  simpl. destruct (IH (step w e)) as [-> ->]. by apply step_keeps_timer.
Qed.

(** X25: the timer is decided when the callback of [setupAutoRefresh] runs:
    it leaves one timer when [autoRefresh] is stored as [true] or not stored,
    the cases in which the options page shows the box checked, and none when
    it is stored as [false] or the storage cannot be read. No other event
    changes the timer afterwards, nor does a later save of the options with
    the reload message it sends: what a save stores takes no effect on the
    timer until that callback runs again. *)
Theorem timer_set_by_callback `{Host} (stored : option (list key)) (d : Dom)
  (es es' : list Event) (store : Sync) (parses : string → bool)
  (form : Options.Form) (lastError : option string) (store' : Sync) :
  Forall keeps_timer es' →
  let w := run es (initial stored d) in
  let w1 := setupAutoRefresh (autoRefresh_read (Some store)) w in
  let w2 := run es' w1 in
  let outcome := Options.saveSettings parses form lastError store' in
  size (intervals (browser w1))
  = (if Options.autoRefresh (Options.loadSettings store) then 1 else 0) ∧
  size (intervals (browser (setupAutoRefresh (autoRefresh_read None) w))) = 0 ∧
  intervals (browser w2) = intervals (browser w1) ∧
  intervals (browser (broadcast (Options.sent outcome) w2))
  = intervals (browser w1).
Proof.
  intros Hes' w w1 w2 outcome.
  assert (Hw : timer_owned w) by apply run_timers, timer_owned_initial.
  destruct (run_keeps_timer es' w1 Hes') as [Hw2 _]. fold w2 in Hw2.
  split_and!.
  - subst w1. rewrite (timer_owned_size _ (setupAutoRefresh_timers _ w Hw)).
    rewrite setupAutoRefresh_handle. simpl.
    by destruct (sync_autoRefresh store) as [[]|].
  - rewrite (timer_owned_size _ (setupAutoRefresh_timers _ w Hw)).
    by rewrite setupAutoRefresh_handle.
  - done.
  - rewrite <-Hw2. unfold broadcast. apply run_keeps_timer.
    apply Forall_fmap, Forall_true. by intros action.
Qed.

Lemma timer_set_by_callback_witness :
  let form := Options.mkForm "server" "jira.example.org" "" true true "Done"
                (Some 20%Z) true true false in
  let es' := [Refresh; SearchSettled 0 (SearchOk [issue "B"]) true;
              SaveSettled 0] in
  let w1 := setupAutoRefresh (autoRefresh_read (Some never_saved))
              (run [] (initial None blank)) in
  Forall keeps_timer es' ∧
  size (intervals (browser w1)) = 1 ∧
  intervals (browser
    (broadcast (Options.sent (Options.saveSettings (λ _, true) form None
                                never_saved))
       (run es' w1)))
  = intervals (browser w1).
Proof.
  intros form es' w1.
  assert (Hes' : Forall keeps_timer es') by (repeat constructor).
  split; [exact Hes'|].
  pose proof (timer_set_by_callback None blank [] es' never_saved (λ _, true)
                form None never_saved Hes') as H.
  cbv zeta in H. destruct H as (H1 & _ & _ & H2).
  split; [exact H1|exact H2].
Defined.

(** ** The status buttons of the options page *)

Lemma toggled_absent `{Host} (status : string) (statuses : list string) :
  Forall (λ s, toLowerCase s ≠ toLowerCase status) statuses →
  Options.toggled status statuses = statuses ++ [status] ∧
  Options.toggled status (statuses ++ [status]) = statuses.
Proof.
  intros Habsent.
  assert (Hnone : list_find (λ s, toLowerCase s = toLowerCase status) statuses
                  = None) by by apply list_find_None.
  unfold Options.toggled. rewrite Hnone. split; [done|].
  rewrite list_find_app_r by done. simpl.
  rewrite decide_True by done. simpl.
  pose proof (delete_middle statuses [] status) as Hd.
  rewrite app_nil_r in Hd. exact Hd.
Qed.

(** X26: a status that no entry of the list equals up to case is pushed at
    the end, and toggling it again takes exactly that entry out: the list is
    as it was before. *)
Theorem toggled_twice `{Host} (status : string) (statuses : list string) :
  Forall (λ s, toLowerCase s ≠ toLowerCase status) statuses →
  Options.toggled status statuses = statuses ++ [status] ∧
  Options.toggled status (Options.toggled status statuses) = statuses.
Proof.
  intros Habsent. destruct (toggled_absent status statuses Habsent) as [H1 H2].
  split; [done|]. by rewrite H1.
Qed.

Lemma toggled_twice_witness :
  Forall (λ s, toLowerCase s ≠ toLowerCase "In Review") ["Done"; "closed"] ∧
  Options.toggled "In Review" (Options.toggled "In Review" ["Done"; "closed"])
  = ["Done"; "closed"].
Proof.
  assert (Habsent : Forall (λ s, toLowerCase s ≠ toLowerCase "In Review")
                           ["Done"; "closed"]).
  { repeat constructor; discriminate. }
  split; [exact Habsent|].
  apply (toggled_twice "In Review" ["Done"; "closed"] Habsent).
Defined.

(** X27: when an entry equals the status up to case, the toggle takes the
    first such entry out, whatever its spelling, and leaves the others in
    place. *)
Theorem toggled_present `{Host} (status : string) (before after : list string)
  (entry : string) :
  Forall (λ s, toLowerCase s ≠ toLowerCase status) before →
  toLowerCase entry = toLowerCase status →
  Options.toggled status (before ++ entry :: after) = before ++ after.
Proof.
  intros Habsent Hentry.
  assert (Hnone : list_find (λ s, toLowerCase s = toLowerCase status) before
                  = None) by by apply list_find_None.
  unfold Options.toggled. rewrite list_find_app_r by done. simpl.
  rewrite decide_True by done. simpl. apply delete_middle.
Qed.

Lemma toggled_present_witness :
  (Forall (λ s, toLowerCase s ≠ toLowerCase "Done") ["Closed"] ∧
   toLowerCase "DONE" = toLowerCase "Done") ∧
  Options.toggled "Done" (["Closed"] ++ "DONE" :: ["Resolved"; "done"])
  = ["Closed"] ++ ["Resolved"; "done"].
Proof.
  assert (Habsent : Forall (λ s, toLowerCase s ≠ toLowerCase "Done")
                           ["Closed"]).
  { repeat constructor; discriminate. }
  split; [split; [exact Habsent|reflexivity]|].
  apply (toggled_present "Done" ["Closed"] ["Resolved"; "done"] "DONE"
           Habsent eq_refl).
Defined.

Section pieces.
Context (seps : list Ascii.ascii).

Lemma split_nonempty (s : string) : split seps s ≠ [].
Proof.
  destruct s as [|c s]; [done|]. cbn [split].
  case_bool_decide; [done|]. by destruct (split seps s).
Qed.

Lemma split_cons_whole (c : Ascii.ascii) (s : string) :
  c ∉ seps → split seps s = [s] → split seps (String c s) = [String c s].
Proof.
  intros Hc Hs. cbn [split]. rewrite bool_decide_false by done. by rewrite Hs.
Qed.

Lemma split_whole_cons (c : Ascii.ascii) (s : string) :
  split seps (String c s) = [String c s] → (c ∉ seps) ∧ split seps s = [s].
Proof.
  cbn [split]. case_bool_decide as Hc.
  - intros [=].
  - pose proof (split_nonempty s) as Hne.
    destruct (split seps s) as [|piece pieces]; [done|].
    by intros [= -> ->].
Qed.

Lemma split_append_sep (x y : string) (c : Ascii.ascii) :
  split seps x = [x] → c ∈ seps →
  split seps (x +:+ String c y) = x :: split seps y.
Proof.
  intros Hx Hc. induction x as [|a x IH].
  - change ("" +:+ String c y) with (String c y). cbn [split].
    by rewrite bool_decide_true.
  - apply split_whole_cons in Hx as [Ha Hx].
    rewrite append_cons. cbn [split].
    rewrite bool_decide_false by done. by rewrite (IH Hx).
Qed.
End pieces.

Lemma concat_cons_head (sep : string) (a : Ascii.ascii) (y : string)
  (ys : list string) :
  String a (String.concat sep (y :: ys)) = String.concat sep (String a y :: ys).
Proof. by destruct ys. Qed.

Lemma split_joined (x : string) (xs : list string) :
  let seps := [comma_char; newline_char] in
  split seps x = [x] → Forall (λ y, split seps y = [y]) xs →
  split seps (String.concat ", " (x :: xs)) = x :: ((λ y, " " +:+ y) <$> xs).
Proof.
  intros seps Hx Hxs. revert x Hx.
  induction Hxs as [|y ys Hy _ IH]; intros x Hx; [done|].
  change (String.concat ", " (x :: y :: ys))
    with (x +:+ String comma_char
                  (String space_char (String.concat ", " (y :: ys)))).
  rewrite split_append_sep; [|done|by left].
  rewrite concat_cons_head, IH.
  - done.
  - apply split_cons_whole; [|done]. subst seps. decided.
Qed.

Lemma trimmed_pieces `{Host} (l : list string) :
  Forall plain l → l ≠ [] →
  trim <$> split [comma_char; newline_char] (String.concat ", " l) = l.
Proof.
  intros Hl Hne. destruct l as [|x xs]; [done|].
  apply Forall_cons in Hl as [(_ & Hx & _ & Hsx) Hxs].
  rewrite split_joined; [|done|].
  - rewrite fmap_cons, Hx. f_equal.
    rewrite <-list_fmap_compose.
    induction Hxs as [|y ys (_ & _ & Hy & _) _ IH]; [done|].
    rewrite fmap_cons. simpl. by rewrite Hy, IH.
  - eapply Forall_impl; [exact Hxs|]. by intros y (_ & _ & _ & Hy).
Qed.

Lemma currentStatuses_joined `{Host} (statuses : list string) :
  Forall plain statuses →
  Options.currentStatuses (String.concat ", " statuses) = statuses.
Proof.
  intros Hl. unfold Options.currentStatuses.
  destruct statuses as [|x xs].
  - simpl. by rewrite trim_empty.
  - rewrite trimmed_pieces by done.
    apply filter_all. intros s Hs.
    rewrite Forall_forall in Hl. by destruct (Hl s Hs).
Qed.

(** X28: joining plain statuses with [, ] and reading the text back as
    [toggleStatus] and [updateStatusButtons] do gives the same statuses:
    what the buttons write into the text area they read back unchanged, and
    a button is active exactly when the list holds its status up to case. *)
Theorem statuses_round_trip `{Host} (statuses : list string)
  (status : string) :
  Forall plain statuses → status ≠ "" →
  Options.currentStatuses (String.concat ", " statuses) = statuses ∧
  (Options.active status (String.concat ", " statuses) = true
   ↔ ∃ s, s ∈ statuses ∧ toLowerCase s = toLowerCase status).
Proof.
  intros Hl Hstatus. split; [by apply currentStatuses_joined|].
  unfold Options.active.
  rewrite bool_decide_eq_true, list_elem_of_filter.
  destruct statuses as [|x xs].
  - simpl. rewrite trim_empty, toLowerCase_empty, list_elem_of_singleton.
    split.
    + intros [Hne Heq]. by destruct Hne.
    + intros (s & Hs & _). by apply elem_of_nil in Hs.
  - assert (Hc : ∀ pieces : list string,
      (λ s, toLowerCase (trim s)) <$> pieces
      = toLowerCase <$> (trim <$> pieces)).
    { intros pieces. by rewrite <-list_fmap_compose. }
    rewrite Hc, trimmed_pieces by done. rewrite list_elem_of_fmap. split.
    + intros [_ (s & Heq & Hs)]. by exists s.
    + intros (s & Hs & Heq). split; [by apply toLowerCase_truthy|].
      by exists s.
Qed.

Lemma plain_ascii (s : string) :
  bool_decide (s ≠ "" ∧ trim s = s ∧ trim (" " +:+ s) = s ∧
               split [comma_char; newline_char] s = [s]) = true →
  plain s.
Proof. apply bool_decide_eq_true. Qed.

Lemma statuses_round_trip_witness :
  Forall plain ["Done"; "In Review"] ∧
  Options.currentStatuses (String.concat ", " ["Done"; "In Review"])
  = ["Done"; "In Review"].
Proof.
  assert (Hl : Forall plain ["Done"; "In Review"]).
  { repeat constructor; apply plain_ascii; vm_compute; reflexivity. }
  split; [exact Hl|].
  apply (statuses_round_trip ["Done"; "In Review"] "Done" Hl).
  discriminate.
Defined.

Lemma active_joined `{Host} (status : string) (l : list string) :
  Forall plain l → status ≠ "" →
  Options.active status (String.concat ", " l) = true
  ↔ ∃ s, s ∈ l ∧ toLowerCase s = toLowerCase status.
Proof.
  intros Hl Hstatus. unfold Options.active.
  rewrite bool_decide_eq_true, list_elem_of_filter.
  destruct l as [|x xs].
  - simpl. rewrite trim_empty, toLowerCase_empty, list_elem_of_singleton.
    split.
    + intros [Hne Heq]. by destruct Hne.
    + intros (s & Hs & _). by apply elem_of_nil in Hs.
  - assert (Hc : ∀ pieces : list string,
      (λ s, toLowerCase (trim s)) <$> pieces
      = toLowerCase <$> (trim <$> pieces)).
    { intros pieces. by rewrite <-list_fmap_compose. }
    rewrite Hc, trimmed_pieces by done. rewrite list_elem_of_fmap. split.
    + intros [_ (s & Heq & Hs)]. by exists s.
    + intros (s & Hs & Heq). split; [by apply toLowerCase_truthy|].
      by exists s.
Qed.

(** X29: for plain statuses and a status that the text area does not list,
    whatever the case, a click on its button appends it and marks the button
    active, and a second click gives back the list of before and marks the
    button inactive. *)
Theorem toggleStatus_twice `{Host} (status text : string) :
  plain status → Forall plain (Options.currentStatuses text) →
  Forall (λ s, toLowerCase s ≠ toLowerCase status)
         (Options.currentStatuses text) →
  let text' := Options.toggleStatus status text in
  let text'' := Options.toggleStatus status text' in
  Options.currentStatuses text' = Options.currentStatuses text ++ [status] ∧
  Options.active status text' = true ∧
  text'' = String.concat ", " (Options.currentStatuses text) ∧
  Options.active status text'' = false.
Proof.
  intros Hstatus Hplain Habsent text' text''.
  set (l := Options.currentStatuses text) in *.
  destruct (toggled_absent status l Habsent) as [H1 H2].
  assert (Hplain' : Forall plain (l ++ [status])).
  { apply Forall_app. split; [done|]. by apply Forall_singleton. }
  assert (Htext' : text' = String.concat ", " (l ++ [status])).
  { subst text'. unfold Options.toggleStatus. fold l. by rewrite H1. }
  assert (Hl' : Options.currentStatuses text' = l ++ [status]).
  { rewrite Htext'. by apply currentStatuses_joined. }
  assert (Htext'' : text'' = String.concat ", " l).
  { subst text''. unfold Options.toggleStatus. by rewrite Hl', H2. }
  destruct Hstatus as (Hne & _).
  split_and!.
  - done.
  - rewrite Htext'. apply active_joined; [done|done|].
    exists status. split; [|done]. apply elem_of_app. right. by left.
  - done.
  - rewrite Htext''. apply not_true_is_false.
    rewrite active_joined by done. intros (s & Hs & Heq).
    rewrite Forall_forall in Habsent. by destruct (Habsent s Hs).
Qed.

Lemma toggleStatus_twice_witness :
  let text := "Done, Closed" in
  (plain "In Review" ∧ Forall plain (Options.currentStatuses text) ∧
   Forall (λ s, toLowerCase s ≠ toLowerCase "In Review")
          (Options.currentStatuses text)) ∧
  Options.toggleStatus "In Review" (Options.toggleStatus "In Review" text)
  = "Done, Closed".
Proof.
  intros text.
  assert (Hs : plain "In Review").
  { apply plain_ascii. vm_compute. reflexivity. }
  assert (Hl : Forall plain (Options.currentStatuses text)).
  { repeat constructor; apply plain_ascii; vm_compute; reflexivity. }
  assert (Ha : Forall (λ s, toLowerCase s ≠ toLowerCase "In Review")
                      (Options.currentStatuses text)).
  { repeat constructor; discriminate. }
  split; [by split_and!|].
  pose proof (toggleStatus_twice "In Review" text Hs Hl Ha) as H.
  cbv zeta in H. destruct H as (_ & _ & H & _). exact H.
Defined.
